(** * coordinax: vectors, differentials and their construction, arithmetic
      and array-style operations

    A shallow embedding of
      - [src/coordinax/_base.py]      (AbstractVectorBase),
      - [src/coordinax/_base_dif.py]  (AbstractVectorDifferential, AdditionMixin),
      - [src/coordinax/_dn/base.py]   (AbstractNDVector, AbstractNDVectorDifferential),
      - [src/vector/_d2/compat.py]    (conversions to Quantity).

    Python exceptions are values of [Exn]; a fallible computation returns
    [Result A].  An array entry is a finite value, an infinity or NaN;
    finite values are exact rationals kept in lowest terms, so that
    component-wise equality is Leibniz equality. *)

From Stdlib Require Import List String Ascii Bool Arith ZArith QArith Qreduction Lia.
Import ListNotations.
Local Close Scope Q_scope.
Local Close Scope Z_scope.
Local Open Scope string_scope.
Local Open Scope list_scope.
Local Open Scope nat_scope.
Local Set Warnings "-register-all".

(* ===================================================================== *)
(** ** Exceptions and results *)

Inductive Exn : Type :=
| TypeError
| ValueError
| IndexError
| KeyError
| AttributeError
| NotImplementedError
| ShapeMismatchError       (* raised by eqx.error_if in the Quantity constructor *)
| UnitConversionError.

Inductive Result (A : Type) : Type :=
| Ok (a : A)
| Err (e : Exn).
Arguments Ok {A} a.
Arguments Err {A} e.

Definition bind {A B : Type} (r : Result A) (f : A -> Result B) : Result B :=
  match r with
  | Ok a => f a
  | Err e => Err e
  end.

Notation "x <- c ;; k" := (bind c (fun x => k))
  (at level 61, c at next level, right associativity).

Fixpoint mapM {A B : Type} (f : A -> Result B) (l : list A) : Result (list B) :=
  match l with
  | [] => Ok []
  | a :: l' => b <- f a ;; bs <- mapM f l' ;; Ok (b :: bs)
  end.

(* ===================================================================== *)
(** ** Ordered dictionaries (Python [dict], keyword arguments) *)

Section Dict.
Context {V : Type}.

Definition Dict := list (string * V).

Fixpoint dict_get (k : string) (d : Dict) : option V :=
  match d with
  | [] => None
  | (k', v) :: d' => if String.eqb k k' then Some v else dict_get k d'
  end.

Definition dict_mem (k : string) (d : Dict) : bool :=
  match dict_get k d with Some _ => true | None => false end.

(** [d[k] = v]: an existing key keeps its position, a new one goes last. *)
Fixpoint dict_set (k : string) (v : V) (d : Dict) : Dict :=
  match d with
  | [] => [(k, v)]
  | (k', v') :: d' =>
      if String.eqb k k' then (k, v) :: d' else (k', v') :: dict_set k v d'
  end.

(** [dict(items)] and dict comprehensions: insert the items in order. *)
Definition dict_of_items (items : list (string * V)) : Dict :=
  fold_left (fun d kv => dict_set (fst kv) (snd kv) d) items [].

Definition dict_keys (d : Dict) : list string := map fst d.
End Dict.
Arguments Dict V : clear implicits.

Definition str_mem (s : string) (l : list string) : bool :=
  existsb (String.eqb s) l.

(** Python's [s[n:]]. *)
Fixpoint str_drop (n : nat) (s : string) : string :=
  match n, s with
  | O, _ => s
  | S n', String _ s' => str_drop n' s'
  | S _, EmptyString => EmptyString
  end.

(* ===================================================================== *)
(** ** Array entries *)

(** A floating-point entry: a finite value, plus or minus infinity, or
    NaN.  Finite values are exact rationals in lowest terms; the
    rounding and the overflow of finite arithmetic are left out. *)
Inductive Num : Type :=
| Fin (x : Q)
| PInf
| NInf
| NaN.

Coercion Fin : Q >-> Num.

Definition is_finite (x : Num) : bool :=
  match x with
  | Fin _ => true
  | _ => false
  end.

Definition inf_of_sign (c : comparison) : Num :=
  match c with
  | Gt => PInf
  | Lt => NInf
  | Eq => NaN
  end.

Definition nneg (x : Num) : Num :=
  match x with
  | Fin a => Fin (Qred (- a))
  | PInf => NInf
  | NInf => PInf
  | NaN => NaN
  end.

(** Addition: opposite infinities give NaN. *)
Definition nadd (x y : Num) : Num :=
  match x, y with
  | NaN, _ => NaN
  | _, NaN => NaN
  | Fin a, Fin b => Fin (Qred (a + b))
  | PInf, NInf => NaN
  | NInf, PInf => NaN
  | PInf, _ => PInf
  | _, PInf => PInf
  | NInf, _ => NInf
  | _, NInf => NInf
  end.

(** Subtraction: equal infinities give NaN. *)
Definition nsub (x y : Num) : Num :=
  match x, y with
  | NaN, _ => NaN
  | _, NaN => NaN
  | Fin a, Fin b => Fin (Qred (a - b))
  | PInf, PInf => NaN
  | NInf, NInf => NaN
  | PInf, _ => PInf
  | _, PInf => NInf
  | NInf, _ => NInf
  | _, NInf => PInf
  end.

(** Multiplication: zero times an infinity gives NaN. *)
Definition nmul (x y : Num) : Num :=
  match x, y with
  | NaN, _ => NaN
  | _, NaN => NaN
  | Fin a, Fin b => Fin (Qred (a * b))
  | Fin a, PInf => inf_of_sign (Qcompare a 0)
  | PInf, Fin a => inf_of_sign (Qcompare a 0)
  | Fin a, NInf => inf_of_sign (CompOpp (Qcompare a 0))
  | NInf, Fin a => inf_of_sign (CompOpp (Qcompare a 0))
  | PInf, PInf => PInf
  | NInf, NInf => PInf
  | PInf, NInf => NInf
  | NInf, PInf => NInf
  end.

(** Multiplication by a positive finite factor, as a change of unit is. *)
Definition nconv (f : Q) (x : Num) : Num :=
  match x with
  | Fin a => Fin (Qred (a * f))
  | _ => x
  end.

(* ===================================================================== *)
(** ** The array backend: shapes and row-major data *)

Definition Shape := list nat.

Definition prod (s : Shape) : nat := fold_right Nat.mul 1 s.

Record Array : Type := mkArray { shape : Shape; data : list Num }.

Definition ndim (a : Array) : nat := List.length (shape a).

(** [shape[-1]]: IndexError on a 0-d array. *)
Definition last_dim (s : Shape) : Result nat :=
  match rev s with
  | [] => Err IndexError
  | n :: _ => Ok n
  end.

(** [shape[:-1]]: slicing never fails. *)
Definition batch_shape (s : Shape) : Shape := removelast s.

(** Every [n]-th entry starting at offset [i]: the data of [a[..., i]]
    when the trailing axis has length [n]. *)
Fixpoint chunks (sz n : nat) (xs : list Num) : list (list Num) :=
  match n with
  | O => []
  | S n' => firstn sz xs :: chunks sz n' (skipn sz xs)
  end.

Definition take_last_axis (a : Array) (i : nat) : Array :=
  let n := last (shape a) 1%nat in
  let b := batch_shape (shape a) in
  mkArray b (map (fun row => nth i row (Fin 0)) (chunks n (prod b) (data a))).

(** [a[..., i]] *)
Definition index_last (a : Array) (i : nat) : Result Array :=
  n <- last_dim (shape a) ;;
  if i <? n then Ok (take_last_axis a i) else Err IndexError.

(** numpy broadcasting of two shapes, aligned on the right. *)
Fixpoint broadcast_rev (s t : Shape) : Result Shape :=
  match s, t with
  | [], _ => Ok t
  | _, [] => Ok s
  | a :: s', b :: t' =>
      r <- broadcast_rev s' t' ;;
      if a =? b then Ok (a :: r)
      else if a =? 1 then Ok (b :: r)
      else if b =? 1 then Ok (a :: r)
      else Err ValueError
  end.

Definition broadcast2 (s t : Shape) : Result Shape :=
  r <- broadcast_rev (rev s) (rev t) ;; Ok (rev r).

(** [jnp.broadcast_shapes] over a list of shapes *)
Fixpoint broadcast_shapes (ss : list Shape) : Result Shape :=
  match ss with
  | [] => Ok []
  | s :: ss' => r <- broadcast_shapes ss' ;; broadcast2 s r
  end.

(** Data of an array of shape [src] broadcast to [dst]; both shapes have
    the same length (the source is padded with leading 1s beforehand). *)
Fixpoint bcast_data (src dst : Shape) (xs : list Num) : list Num :=
  match src, dst with
  | a :: src', b :: dst' =>
      if a =? b
      then flat_map (bcast_data src' dst') (chunks (prod src') a xs)
      else List.concat (repeat (bcast_data src' dst' xs) b)
  | _, _ => xs
  end.

(** [jnp.broadcast_to(a, s)]: an array that already has shape [s] is
    returned as it is. *)
Definition broadcast_to (a : Array) (s : Shape) : Array :=
  if list_eq_dec Nat.eq_dec (shape a) s then a
  else mkArray s
         (bcast_data (repeat 1 (List.length s - ndim a) ++ shape a) s (data a)).

(** Reshape in C order: the data are kept, the total size must agree. *)
Definition areshape (a : Array) (s : Shape) : Result Array :=
  if prod (shape a) =? prod s then Ok (mkArray s (data a)) else Err TypeError.

(** Row-major multi-index of a flat position, and back. *)
Fixpoint unravel (s : Shape) (j : nat) : list nat :=
  match s with
  | [] => []
  | _ :: s' => j / prod s' :: unravel s' (j mod prod s')
  end.

Fixpoint ravel (s : Shape) (idx : list nat) : nat :=
  match s, idx with
  | _ :: s', i :: idx' => i * prod s' + ravel s' idx'
  | _, _ => 0
  end.

(** Position of axis [ax] in the permutation [perm]. *)
Fixpoint index_of (ax : Z) (perm : list Z) : nat :=
  match perm with
  | [] => 0
  | p :: perm' => if Z.eqb p ax then 0 else S (index_of ax perm')
  end.

(** [sorted(perm) == range(ndim)]: the check made by [lax.transpose]. *)
Definition is_permutation (perm : list Z) (n : nat) : bool :=
  (List.length perm =? n) &&
  forallb (fun i => existsb (Z.eqb (Z.of_nat i)) perm) (seq 0 n).

(** [lax.transpose(a, perm)]: axis [k] of the result is axis [perm[k]] of
    the operand; anything but a permutation of the axes is a TypeError. *)
Definition lax_transpose (a : Array) (perm : list Z) : Result Array :=
  if is_permutation perm (ndim a) then
    let s' := map (fun p => nth (Z.to_nat p) (shape a) 0) perm in
    Ok (mkArray s'
          (map (fun j =>
                  let ri := unravel s' j in
                  let si := map (fun ax => nth (index_of (Z.of_nat ax) perm) ri 0)
                                (seq 0 (ndim a)) in
                  nth (ravel (shape a) si) (data a) (Fin 0))
               (seq 0 (prod s'))))
  else Err TypeError.

(** [xp.stack(arrays, axis=-1)]: equal shapes, a new trailing axis. *)
Definition astack (arrs : list Array) : Result Array :=
  match arrs with
  | [] => Err ValueError
  | a :: rest =>
      if forallb (fun b => if list_eq_dec Nat.eq_dec (shape b) (shape a)
                           then true else false) rest
      then Ok (mkArray (shape a ++ [List.length arrs])
                 (flat_map (fun j => map (fun b => nth j (data b) (Fin 0)) arrs)
                           (seq 0 (prod (shape a)))))
      else Err ValueError
  end.

Definition zip_with (f : Num -> Num -> Num) (xs ys : list Num) : list Num :=
  map (fun p => f (fst p) (snd p)) (combine xs ys).

(** The common shape of the operands of an element-wise operation;
    shapes that do not broadcast are a TypeError there. *)
Definition broadcast_operands (s t : Shape) : Result Shape :=
  match broadcast_shapes [s; t] with
  | Ok r => Ok r
  | Err _ => Err TypeError
  end.

(** An element-wise binary operation with broadcasting. *)
Definition abinop (f : Num -> Num -> Num) (a b : Array) : Result Array :=
  s <- broadcast_operands (shape a) (shape b) ;;
  Ok (mkArray s (zip_with f (data (broadcast_to a s)) (data (broadcast_to b s)))).

Definition amap (f : Num -> Num) (a : Array) : Array :=
  mkArray (shape a) (map f (data a)).

(* ===================================================================== *)
(** ** The Quantity adapter: units, physical types, unit-tagged arrays *)

(** A physical type is a vector of exponents of the base dimensions. *)
Record Dim : Type := mkDim { d_length : Z; d_time : Z; d_angle : Z }.

Definition dim_eqb (a b : Dim) : bool :=
  Z.eqb (d_length a) (d_length b) && Z.eqb (d_time a) (d_time b)
  && Z.eqb (d_angle a) (d_angle b).

Definition dim_mul (a b : Dim) : Dim :=
  mkDim (d_length a + d_length b) (d_time a + d_time b) (d_angle a + d_angle b)%Z.

(** A unit: its physical type and its (positive) size in base units. *)
Record Unit : Type :=
  mkUnit { physical_type : Dim; scale_num : positive; scale_den : positive }.

Definition unit_scale (u : Unit) : Q := Zpos (scale_num u) # scale_den u.

Definition unit_mul (u v : Unit) : Unit :=
  let q := Qred (unit_scale u * unit_scale v) in
  mkUnit (dim_mul (physical_type u) (physical_type v)) (Z.to_pos (Qnum q)) (Qden q).

Record Quantity : Type := mkQ { value : Array; unit : Unit }.

(** The values of [q] expressed in [u]. *)
Definition q_convert (q : Quantity) (u : Unit) : Quantity :=
  mkQ (amap (nconv (unit_scale (unit q) / unit_scale u)) (value q)) u.

(** [q.to_units(u)]: only within one physical type. *)
Definition q_to_units (q : Quantity) (u : Unit) : Result Quantity :=
  if dim_eqb (physical_type (unit q)) (physical_type u)
  then Ok (q_convert q u)
  else Err UnitConversionError.

(** [a + b] and [a - b]: the right operand is brought to the unit of the
    left one. *)
Definition qadd (a b : Quantity) : Result Quantity :=
  b' <- q_to_units b (unit a) ;;
  v <- abinop nadd (value a) (value b') ;;
  Ok (mkQ v (unit a)).

Definition qsub (a b : Quantity) : Result Quantity :=
  b' <- q_to_units b (unit a) ;;
  v <- abinop nsub (value a) (value b') ;;
  Ok (mkQ v (unit a)).

(** [a * b]: values and units multiply. *)
Definition qmul (a b : Quantity) : Result Quantity :=
  v <- abinop nmul (value a) (value b) ;;
  Ok (mkQ v (unit_mul (unit a) (unit b))).

Definition qneg (a : Quantity) : Quantity :=
  mkQ (amap nneg (value a)) (unit a).

(** [k * a] for a plain number [k]. *)
Definition qscale (k : Q) (a : Quantity) : Quantity :=
  mkQ (amap (nmul (Fin k)) (value a)) (unit a).

(** The quantity of zeros with the shape and unit of [a]. *)
Definition qzeros_like (a : Quantity) : Quantity :=
  mkQ (amap (fun _ => Fin 0) (value a)) (unit a).

(** [q[..., i]] *)
Definition q_index_last (q : Quantity) (i : nat) : Result Quantity :=
  a <- index_last (value q) i ;; Ok (mkQ a (unit q)).

(** [xp.stack(qs, axis=-1)] on quantities: all operands are brought to
    the unit of the first one. *)
Definition qstack (qs : list Quantity) : Result Quantity :=
  match qs with
  | [] => Err ValueError
  | q0 :: _ =>
      vs <- mapM (fun q => q' <- q_to_units q (unit q0) ;; Ok (value q')) qs ;;
      a <- astack vs ;;
      Ok (mkQ a (unit q0))
  end.

Definition q_reshape (q : Quantity) (s : Shape) : Result Quantity :=
  a <- areshape (value q) s ;; Ok (mkQ a (unit q)).

Definition q_transpose (q : Quantity) (perm : list Z) : Result Quantity :=
  a <- lax_transpose (value q) perm ;; Ok (mkQ a (unit q)).

Definition q_broadcast_to (q : Quantity) (s : Shape) : Quantity :=
  mkQ (broadcast_to (value q) s) (unit q).

(** Some units used in the examples. *)
Definition dim_len : Dim := mkDim 1 0 0.
Definition dim_speed : Dim := mkDim 1 (-1) 0.
Definition dim_time : Dim := mkDim 0 1 0.
Definition u_m : Unit := mkUnit dim_len 1 1.
Definition u_km : Unit := mkUnit dim_len 1000 1.
Definition u_s : Unit := mkUnit dim_time 1 1.
Definition u_m_s : Unit := mkUnit dim_speed 1 1.
Definition u_km_s : Unit := mkUnit dim_speed 1000 1.

Definition scalar (x : Q) (u : Unit) : Quantity := mkQ (mkArray [] [Fin x]) u.
Definition nums (xs : list Q) : list Num := map Fin xs.
Definition vec1 (xs : list Q) (u : Unit) : Quantity :=
  mkQ (mkArray [List.length xs] (nums xs)) u.

(* ===================================================================== *)
(** ** Classes and instances *)

(** A vector class: its name, the names of the classes in its method
    resolution order (itself first), whether it still has abstract
    methods, its declared dataclass fields, and the class-level links
    [_cartesian_cls] (by name, a Cartesian class names itself) and
    [integral_cls] (absent on positions and on abstract differentials). *)
Inductive Class : Type := mkClass {
  cls_name : string;
  cls_mro : list string;
  cls_abstract : bool;
  cls_fields : list string;
  cls_cartesian : string;
  cls_integral : option Class
}.

(** An instance: its class and its components, in declared field order. *)
Record Vector : Type := mkVector { vcls : Class; comps : Dict Quantity }.

(** [isinstance(v, C)], with [C] given by name. *)
Definition isinstance (v : Vector) (c : string) : bool :=
  str_mem c (cls_mro (vcls v)).

(** [type(v) is C] *)
Definition type_is (v : Vector) (C : Class) : bool :=
  String.eqb (cls_name (vcls v)) (cls_name C).

(** [getattr(v, name)] on a component. *)
Definition getattr (v : Vector) (name : string) : Result Quantity :=
  match dict_get name (comps v) with
  | Some q => Ok q
  | None => Err AttributeError
  end.

(** [C] called with keyword arguments, that is the generated dataclass
    initialiser.  An abstract class cannot be instantiated; an
    unexpected or a missing keyword is a TypeError; the components are
    stored in declared field order. *)
Definition cls_call (C : Class) (kwargs : Dict Quantity) : Result Vector :=
  if cls_abstract C then Err TypeError
  else if negb (forallb (fun k => str_mem k (cls_fields C)) (dict_keys kwargs))
  then Err TypeError
  else
    cs <- mapM (fun f => match dict_get f kwargs with
                         | Some q => Ok (f, q)
                         | None => Err TypeError
                         end) (cls_fields C) ;;
    Ok (mkVector C cs).

(** [dataclasses.replace] of [v] with [changes]: every field that is
    not among the changes is read from [v], then the class is called. *)
Fixpoint replace_fill (v : Vector) (fs : list string) (changes : Dict Quantity)
  : Result (Dict Quantity) :=
  match fs with
  | [] => Ok changes
  | f :: fs' =>
      if dict_mem f changes then replace_fill v fs' changes
      else q <- getattr v f ;; replace_fill v fs' (dict_set f q changes)
  end.

Definition replace (v : Vector) (changes : Dict Quantity) : Result Vector :=
  ch <- replace_fill v (cls_fields (vcls v)) changes ;;
  cls_call (vcls v) ch.

(** Modelled from the spec: [_utils.dataclass_items] and
    [_utils.dataclass_values], the (name, component) pairs and the
    components of an instance in declared field order. *)
Definition dataclass_items (v : Vector) : list (string * Quantity) := comps v.
Definition dataclass_values (v : Vector) : list Quantity := map snd (comps v).

(** A dict comprehension [{k: f(k, v) for k, v in items}] whose value
    expression may raise. *)
Definition dict_comp (f : string -> Quantity -> Result Quantity)
  (items : list (string * Quantity)) : Result (Dict Quantity) :=
  kvs <- mapM (fun kv => q <- f (fst kv) (snd kv) ;; Ok (fst kv, q)) items ;;
  Ok (dict_of_items kvs).

(** What every instance satisfies: its class is concrete, the declared
    field names are distinct, and it holds one component per field. *)
Definition vec_wf (v : Vector) : Prop :=
  cls_abstract (vcls v) = false /\
  NoDup (cls_fields (vcls v)) /\
  dict_keys (comps v) = cls_fields (vcls v).

(* --------------------------------------------------------------------- *)
(** *** AbstractVectorBase: shape, size *)

Definition shapes (v : Vector) : list Shape :=
  map (fun q => shape (value q)) (dataclass_values v).

(** [AbstractVectorBase.shape] *)
Definition vshape (v : Vector) : Result Shape := broadcast_shapes (shapes v).

(** Modelled from the spec: [_utils.full_shaped], every component
    explicitly broadcast to the common shape of the instance. *)
Definition full_shaped (v : Vector) : Result Vector :=
  s <- vshape v ;;
  replace v (dict_of_items
               (map (fun kv => (fst kv, q_broadcast_to (snd kv) s)) (comps v))).

(* --------------------------------------------------------------------- *)
(** *** AbstractVectorBase.constructor *)

(** Mapping overload: the class called on the mapping as keywords. *)
Definition constructor_mapping (C : Class) (obj : Dict Quantity) : Result Vector :=
  cls_call C obj.

(** [enumerate(l)], counting from [i]. *)
Fixpoint enumerate_from {A : Type} (i : nat) (l : list A) : list (nat * A) :=
  match l with
  | [] => []
  | a :: l' => (i, a) :: enumerate_from (S i) l'
  end.

(** [{f.name: obj[..., i] for i, f in enumerate(fields(cls))}] *)
Definition slice_comps (C : Class) (obj : Quantity) : Result (Dict Quantity) :=
  kvs <- mapM (fun p => q <- q_index_last obj (fst p) ;; Ok (snd p, q))
              (enumerate_from 0 (cls_fields C)) ;;
  Ok (dict_of_items kvs).

(** Quantity overload: the check of the trailing dimension, then one
    slice per declared field. *)
Definition constructor_quantity (C : Class) (obj : Quantity) : Result Vector :=
  n <- last_dim (shape (value obj)) ;;
  if negb (n =? List.length (cls_fields C)) then Err ShapeMismatchError
  else
    cs <- slice_comps C obj ;;
    cls_call C cs.

(** Vector overload.  Instances live in a store and are handled by
    reference, so that returning the argument itself differs from
    returning a copy of it.  A reference outside the store denotes no
    object and does not occur. *)
Definition Ref := nat.
Definition Heap := list Vector.

Definition alloc (h : Heap) (v : Vector) : Ref * Heap :=
  (List.length h, h ++ [v]).

Definition constructor_vector (C : Class) (r : Ref) (h : Heap)
  : Result (Ref * Heap) :=
  match nth_error h r with
  | None => Err ValueError
  | Some obj =>
      if negb (isinstance obj (cls_name C)) then Err TypeError
      else if type_is obj C then Ok (r, h)
      else
        v <- cls_call C (dict_of_items (dataclass_items obj)) ;;
        Ok (alloc h v)
  end.

(* --------------------------------------------------------------------- *)
(** *** AbstractVectorBase.to_units(ToUnitsOptions.consistent) *)

Definition UnitsDict := list (Dim * Unit).

Fixpoint units_get (pt : Dim) (d : UnitsDict) : option Unit :=
  match d with
  | [] => None
  | (pt', u) :: d' => if dim_eqb pt pt' then Some u else units_get pt d'
  end.

(** The loop that fills [units_]: the first unit seen for each physical
    type is kept. *)
Definition first_units (vs : list Quantity) : UnitsDict :=
  fold_left (fun d v =>
               let pt := physical_type (unit v) in
               match units_get pt d with
               | Some _ => d
               | None => d ++ [(pt, unit v)]
               end) vs [].

Definition to_units_consistent (v : Vector) : Result Vector :=
  let units_ := first_units (dataclass_values v) in
  ch <- dict_comp (fun _ q =>
                     match units_get (physical_type (unit q)) units_ with
                     | Some u => q_to_units q u
                     | None => Err KeyError
                     end) (dataclass_items v) ;;
  replace v ch.

(* --------------------------------------------------------------------- *)
(** *** Python values passed as extra arguments or operands *)

Inductive PyVal : Type :=
| PyNone
| PyBool (b : bool)
| PyInt (z : Z)
| PyStr (s : string)
| PyTuple (items : list PyVal)
| PyVec (v : Vector).

(** [bool(x)] *)
Definition py_truthy (x : PyVal) : bool :=
  match x with
  | PyNone => false
  | PyBool b => b
  | PyInt z => negb (Z.eqb z 0)
  | PyStr s => negb (String.eqb s EmptyString)
  | PyTuple items => negb (Nat.eqb (List.length items) 0)
  | PyVec _ => true
  end.

(** Whether a value may be passed to a function compiled by [jax.jit]:
    the leaves must be arrays or numbers, and a string is neither. *)
Fixpoint jit_valid (x : PyVal) : bool :=
  match x with
  | PyStr _ => false
  | PyTuple items => forallb jit_valid items
  | _ => true
  end.

(** [bool(x)] inside the compiled function: a number or a boolean has
    become a tracer, whose truth value cannot be taken (the conversion
    error is a TypeError); [None], tuples and vector objects are still
    Python objects. *)
Definition traced_truthy (x : PyVal) : Result bool :=
  match x with
  | PyBool _ => Err TypeError
  | PyInt _ => Err TypeError
  | _ => Ok (py_truthy x)
  end.

(** [any(xs)] inside the compiled function: it stops at the first true
    element. *)
Fixpoint traced_any (xs : list PyVal) : Result bool :=
  match xs with
  | [] => Ok false
  | x :: xs' => b <- traced_truthy x ;; if b then Ok true else traced_any xs'
  end.

Inductive Warning : Type :=
| UserWarning (msg : string).

(* --------------------------------------------------------------------- *)
(** *** AbstractVectorDifferential *)

(** [self.integral_cls] *)
Definition integral_cls (d : Vector) : Result Class :=
  match cls_integral (vcls d) with
  | Some c => Ok c
  | None => Err NotImplementedError
  end.

(** [{fk(k): fv(k, v) for k, v in items}] *)
Definition dict_comp_keys (fk : string -> string)
  (fv : string -> Quantity -> Result Quantity)
  (items : list (string * Quantity)) : Result (Dict Quantity) :=
  kvs <- mapM (fun kv => q <- fv (fst kv) (snd kv) ;; Ok (fk (fst kv), q)) items ;;
  Ok (dict_of_items kvs).

(** [__neg__] *)
Definition dif_neg (self : Vector) : Result Vector :=
  ch <- dict_comp (fun _ v => Ok (qneg v)) (dataclass_items self) ;;
  replace self ch.

(** [__mul__] with a Quantity. *)
Definition dif_mul (self : Vector) (other : Quantity) : Result Vector :=
  icls <- integral_cls self ;;
  m <- dict_comp_keys (str_drop 2) (fun _ v => qmul v other)
                      (dataclass_items self) ;;
  constructor_mapping icls m.

Section RepresentAs.
(** The transformation engine [coordinax._transform.represent_as] is
    not part of the files at hand: the differential method only
    forwards to it. *)
Variable transform_represent_as :
  Vector -> Class -> Vector -> Dict PyVal -> Result Vector.

(** [AbstractVectorDifferential.represent_as], compiled by [jax.jit]
    with the target as static argument: the warnings issued and the
    result.  An argument that is no valid JAX type is refused before the
    body runs; in the body [any(args)] is taken on the traced arguments. *)
Definition dif_represent_as (self : Vector) (target : Class)
  (position : Vector) (args : list PyVal) (kwargs : Dict PyVal)
  : list Warning * Result Vector :=
  if negb (forallb jit_valid args) then ([], Err TypeError)
  else
    match traced_any args with
    | Err e => ([], Err e)
    | Ok b =>
        (if b then [UserWarning "Extra arguments are ignored."] else [],
         transform_represent_as self target position kwargs)
    end.
End RepresentAs.

(* --------------------------------------------------------------------- *)
(** *** AdditionMixin *)

Definition mixin_add (self : Vector) (other : PyVal) : Result Vector :=
  match other with
  | PyVec o =>
      if negb (isinstance o (cls_cartesian (vcls self))) then Err TypeError
      else
        ch <- dict_comp (fun k v => w <- getattr o k ;; qadd v w)
                        (dataclass_items self) ;;
        replace self ch
  | _ => Err TypeError
  end.

Definition mixin_sub (self : Vector) (other : PyVal) : Result Vector :=
  match other with
  | PyVec o =>
      if negb (isinstance o (cls_cartesian (vcls self))) then Err TypeError
      else
        ch <- dict_comp (fun k v => w <- getattr o k ;; qsub v w)
                        (dataclass_items self) ;;
        replace self ch
  | _ => Err TypeError
  end.

(* --------------------------------------------------------------------- *)
(** *** N-dimensional vectors and differentials *)

(** The axes tuple built by [mT]: [range(ndim - 2)] followed by
    [ndim - 2] and [ndim - 3], as Python integers. *)
Definition mT_axes (n : nat) : list Z :=
  (map Z.of_nat (seq 0 (n - 2)) ++ [Z.of_nat n - 2; Z.of_nat n - 3])%Z.

(** The axes list built by [T]: [range(ndim)[1::-1]], that is [1, 0]
    (only [0] for one axis, nothing for none), followed by [-1]. *)
Definition T_axes (n : nat) : list Z :=
  match n with
  | O => []
  | S O => [0%Z]
  | _ => [1%Z; 0%Z]
  end ++ [(-1)%Z].

Module NDVector.
(** [AbstractNDVector]: the components are the single field [q]. *)

Definition shape_ (self : Vector) : Result Shape :=
  q <- getattr self "q" ;; Ok (batch_shape (shape (value q))).

(** [AbstractVectorBase.size] over the overridden [shape]. *)
Definition size (self : Vector) : Result nat :=
  s <- shape_ self ;; Ok (prod s).

Definition mT (self : Vector) : Result Vector :=
  q <- getattr self "q" ;;
  let n := ndim (value q) in
  if n <? 2 then Err ValueError
  else
    q' <- q_transpose q (mT_axes n) ;;
    replace self [("q", q')].

Definition flatten (self : Vector) : Result Vector :=
  q <- getattr self "q" ;;
  sz <- size self ;;
  n <- last_dim (shape (value q)) ;;
  q' <- q_reshape q [sz; n] ;;
  replace self [("q", q')].

(** [reshape], in the default C order. *)
Definition reshape (self : Vector) (hape : Shape) : Result Vector :=
  q <- getattr self "q" ;;
  n <- last_dim (shape (value q)) ;;
  q' <- q_reshape q (hape ++ [n]) ;;
  replace self [("q", q')].

Definition T (self : Vector) : Result Vector :=
  q <- getattr self "q" ;;
  q' <- q_transpose q (T_axes (ndim (value q))) ;;
  replace self [("q", q')].
End NDVector.

Module NDDifferential.
(** [AbstractNDVectorDifferential]: the components are the single
    field [d_q]. *)

Definition shape_ (self : Vector) : Result Shape :=
  q <- getattr self "d_q" ;; Ok (batch_shape (shape (value q))).

Definition size (self : Vector) : Result nat :=
  s <- shape_ self ;; Ok (prod s).

Definition mT (self : Vector) : Result Vector :=
  dq <- getattr self "d_q" ;;
  let n := ndim (value dq) in
  if n <? 2 then Err ValueError
  else
    q' <- q_transpose dq (mT_axes n) ;;
    replace self [("q", q')].

Definition flatten (self : Vector) : Result Vector :=
  dq <- getattr self "d_q" ;;
  sz <- size self ;;
  n <- last_dim (shape (value dq)) ;;
  q' <- q_reshape dq [sz; n] ;;
  replace self [("q", q')].

Definition reshape (self : Vector) (hape : Shape) : Result Vector :=
  q <- getattr self "q" ;;
  n <- last_dim (shape (value q)) ;;
  q' <- q_reshape q (hape ++ [n]) ;;
  replace self [("q", q')].

Definition T (self : Vector) : Result Vector :=
  dq <- getattr self "d_q" ;;
  q' <- q_transpose dq (T_axes (ndim (value dq))) ;;
  replace self [("q", q')].
End NDDifferential.

(* --------------------------------------------------------------------- *)
(** *** The concrete classes named by the docstrings *)

Module Builtin.
(** Modelled from the spec: the concrete classes of the [builtin]
    modules and their abstract parents, with the field names shown by
    the docstrings ([Cartesian2DVector.components] is [('x', 'y')],
    [RadialDifferential.components] is [('d_r',)], the N-D classes
    hold [q] and [d_q]). *)

Definition Abstract2DVector : Class :=
  mkClass "Abstract2DVector"
    ["Abstract2DVector"; "AbstractVector"; "AbstractVectorBase"]
    true [] "Cartesian2DVector" None.

Definition Cartesian2DVector : Class :=
  mkClass "Cartesian2DVector"
    ["Cartesian2DVector"; "Abstract2DVector"; "AbstractVector";
     "AbstractVectorBase"]
    false ["x"; "y"] "Cartesian2DVector" None.

Definition CartesianDifferential2D : Class :=
  mkClass "CartesianDifferential2D"
    ["CartesianDifferential2D"; "Abstract2DVectorDifferential";
     "AdditionMixin"; "AbstractVectorDifferential"; "AbstractVectorBase"]
    false ["d_x"; "d_y"] "CartesianDifferential2D" (Some Cartesian2DVector).

Definition Cartesian3DVector : Class :=
  mkClass "Cartesian3DVector"
    ["Cartesian3DVector"; "Abstract3DVector"; "AbstractVector";
     "AbstractVectorBase"]
    false ["x"; "y"; "z"] "Cartesian3DVector" None.

Definition CartesianDifferential3D : Class :=
  mkClass "CartesianDifferential3D"
    ["CartesianDifferential3D"; "Abstract3DVectorDifferential";
     "AdditionMixin"; "AbstractVectorDifferential"; "AbstractVectorBase"]
    false ["d_x"; "d_y"; "d_z"] "CartesianDifferential3D"
    (Some Cartesian3DVector).

Definition RadialVector : Class :=
  mkClass "RadialVector"
    ["RadialVector"; "Abstract1DVector"; "AbstractVector";
     "AbstractVectorBase"]
    false ["r"] "Cartesian1DVector" None.

Definition RadialDifferential : Class :=
  mkClass "RadialDifferential"
    ["RadialDifferential"; "Abstract1DVectorDifferential";
     "AbstractVectorDifferential"; "AbstractVectorBase"]
    false ["d_r"] "CartesianDifferential1D" (Some RadialVector).

Definition CartesianNDVector : Class :=
  mkClass "CartesianNDVector"
    ["CartesianNDVector"; "AbstractNDVector"; "AbstractVector";
     "AbstractVectorBase"]
    false ["q"] "CartesianNDVector" None.

Definition CartesianDifferentialND : Class :=
  mkClass "CartesianDifferentialND"
    ["CartesianDifferentialND"; "AbstractNDVectorDifferential";
     "AdditionMixin"; "AbstractVectorDifferential"; "AbstractVectorBase"]
    false ["d_q"] "CartesianDifferentialND" (Some CartesianNDVector).
End Builtin.

(* --------------------------------------------------------------------- *)
(** *** vector._d2.compat: conversion to Quantity *)

Section Compat.
(** [obj.represent_as(target)] on positions is abstract in the base
    class; the transformation rules are not among the files at hand. *)
Variable represent_as : Vector -> Class -> Result Vector.

Definition vec_to_q (obj : Vector) : Result Quantity :=
  c <- represent_as obj Builtin.Cartesian2DVector ;;
  cart <- full_shaped c ;;
  qstack (dataclass_values cart).
End Compat.

Definition vec_diff_to_q (obj : Vector) : Result Quantity :=
  fs <- full_shaped obj ;;
  qstack (dataclass_values fs).

(* --------------------------------------------------------------------- *)
(** *** AbstractVectorBase: further array methods and collection views *)

(** [q.flatten()]: one axis holding all the entries. *)
Definition q_flatten (q : Quantity) : Quantity :=
  mkQ (mkArray [prod (shape (value q))] (data (value q))) (unit q).

(** Axes that swap the last two of [n] axes. *)
Definition swap_last_axes (n : nat) : list Z :=
  map Z.of_nat (seq 0 (n - 2)) ++ [Z.of_nat (n - 1); Z.of_nat (n - 2)].

(** [q.mT]: the matrix transpose of the array backend, which needs two
    axes. *)
Definition q_mT (q : Quantity) : Result Quantity :=
  if ndim (value q) <? 2 then Err ValueError
  else q_transpose q (swap_last_axes (ndim (value q))).

Definition array_wf (a : Array) : Prop :=
  List.length (data a) = prod (shape a).

Module VectorBase.

(** [mT]: component by component, without broadcasting first. *)
Definition mT (self : Vector) : Result Vector :=
  ch <- dict_comp (fun _ v => q_mT v) (dataclass_items self) ;;
  replace self ch.

(** [flatten]: component by component, without broadcasting first. *)
Definition flatten (self : Vector) : Result Vector :=
  ch <- dict_comp (fun _ v => Ok (q_flatten v)) (dataclass_items self) ;;
  replace self ch.

(** [reshape], in the default C order: the components of the
    full-shaped copy are reshaped and put into [self]. *)
Definition reshape (self : Vector) (shape_ : Shape) : Result Vector :=
  full <- full_shaped self ;;
  ch <- dict_comp (fun _ v => q_reshape v shape_) (dataclass_items full) ;;
  replace self ch.

(** [asdict] with the default [dict_factory]. *)
Definition asdict (self : Vector) : Dict Quantity :=
  dict_of_items (dataclass_items self).

(** [units]: the mapping from component name to unit. *)
Definition units (self : Vector) : Dict Unit :=
  dict_of_items (map (fun kv => (fst kv, unit (snd kv))) (dataclass_items self)).

End VectorBase.

(** [units_[pt] = u] on a dictionary keyed by physical type. *)
Fixpoint units_set (pt : Dim) (u : Unit) (d : UnitsDict) : UnitsDict :=
  match d with
  | [] => [(pt, u)]
  | (pt', u') :: d' =>
      if dim_eqb pt pt' then (pt, u) :: d' else (pt', u') :: units_set pt u d'
  end.

(** [to_units] with a mapping from physical type to unit: the mapping is
    rebuilt with its keys as physical types (a later entry for the same
    type wins), then every component is converted to the unit found
    under its physical type. *)
Definition units_of_mapping (units : list (Dim * Unit)) : UnitsDict :=
  fold_left (fun d kv => units_set (fst kv) (snd kv) d) units [].

Definition to_units_mapping (self : Vector) (units : list (Dim * Unit))
  : Result Vector :=
  let units_ := units_of_mapping units in
  ch <- dict_comp (fun _ q =>
                     match units_get (physical_type (unit q)) units_ with
                     | Some u => q_to_units q u
                     | None => Err KeyError
                     end) (dataclass_items self) ;;
  replace self ch.

(* --------------------------------------------------------------------- *)
(** *** Notions used to state the properties *)

(** The first quantity of physical type [pt] in a list of components. *)
Definition first_of_dim (pt : Dim) (vs : list Quantity) : option Quantity :=
  find (fun q0 => dim_eqb pt (physical_type (unit q0))) vs.

(** The unit chosen for a component: that of the first component with
    the same physical type. *)
Definition reference_unit (v : Vector) (q : Quantity) : Unit :=
  match first_of_dim (physical_type (unit q)) (dataclass_values v) with
  | Some q0 => unit q0
  | None => unit q
  end.

(** [x - x] on an entry: zero when [x] is finite, NaN otherwise. *)
Definition self_difference (x : Num) : Num :=
  match x with
  | Fin _ => Fin 0
  | _ => NaN
  end.

Definition q_self_difference (q : Quantity) : Quantity :=
  mkQ (amap self_difference (value q)) (unit q).

(** All entries of a quantity are finite. *)
Definition q_finite (q : Quantity) : Prop :=
  Forall (fun x => is_finite x = true) (data (value q)).

(** What [v * t] yields when it succeeds, as it does for a scalar [t]. *)
Definition qmul_by_scalar (v t : Quantity) : Quantity :=
  mkQ (mkArray (shape (value v))
         (zip_with nmul (data (value v))
                   (data (broadcast_to (value t) (shape (value v))))))
      (unit_mul (unit v) (unit t)).

(** A class heads its own method resolution order. *)
Definition cls_wf (C : Class) : Prop :=
  hd_error (cls_mro C) = Some (cls_name C).

(** Instances used as examples. *)
Module Examples.
Import Builtin.

(** A user-defined subclass of [Cartesian2DVector] that declares no
    further field. *)
Definition MyCartesian2D : Class :=
  mkClass "MyCartesian2D"
    ["MyCartesian2D"; "Cartesian2DVector"; "Abstract2DVector";
     "AbstractVector"; "AbstractVectorBase"]
    false ["x"; "y"] "Cartesian2DVector" None.

Definition my_cart : Vector :=
  mkVector MyCartesian2D [("x", scalar 1 u_m); ("y", scalar 2 u_km)].

(** [Cartesian2DVector(x=Quantity(1, "m"), y=Quantity(2, "km"))] *)
Definition cart_m_km : Vector :=
  mkVector Cartesian2DVector [("x", scalar 1 u_m); ("y", scalar 2 u_km)].

(** [Quantity([1, 2, 3], "m")] *)
Definition q123 : Quantity := vec1 [1; 2; 3]%Q u_m.

(** [{"x": Quantity(1, "m"), "y": Quantity(2, "m"), "z": Quantity(3, "m")}] *)
Definition xs123 : Dict Quantity :=
  [("x", scalar 1 u_m); ("y", scalar 2 u_m); ("z", scalar 3 u_m)].

(** [CartesianDifferential3D.constructor(Quantity([1, 2, 3], "km/s"))] *)
Definition dif123 : Vector :=
  mkVector CartesianDifferential3D
    [("d_x", scalar 1 u_km_s); ("d_y", scalar 2 u_km_s);
     ("d_z", scalar 3 u_km_s)].

(** [Cartesian2DVector(x=Quantity([1, 2], "m"), y=Quantity(0, "km"))] and
    a differential with components of different shapes and units. *)
Definition cart_bc : Vector :=
  mkVector Cartesian2DVector [("x", vec1 [1; 2]%Q u_m); ("y", scalar 0 u_km)].

Definition dif_bc : Vector :=
  mkVector CartesianDifferential2D
    [("d_x", vec1 [1; 2]%Q u_km_s); ("d_y", scalar 5 u_m_s)].

(** A differential with an infinite component:
    [d_x = inf km/s, d_y = 2 km/s, d_z = 3 km/s]. *)
Definition dif_inf : Vector :=
  mkVector CartesianDifferential3D
    [("d_x", mkQ (mkArray [] [PInf]) u_km_s); ("d_y", scalar 2 u_km_s);
     ("d_z", scalar 3 u_km_s)].

(** [Cartesian2DVector(x=Quantity([[1, 2], [3, 4]], "m"), y=Quantity(0, "m"))] *)
Definition cart_22 : Vector :=
  mkVector Cartesian2DVector
    [("x", mkQ (mkArray [2; 2] (nums [1; 2; 3; 4]%Q)) u_m); ("y", scalar 0 u_m)].

Definition iota (n : nat) : list Num :=
  map (fun k => Fin (inject_Z (Z.of_nat k))) (seq 0 n).

(** An N-D position and an N-D differential with stacked arrays of
    shape (2, 3, 4). *)
Definition nd234 : Vector :=
  mkVector CartesianNDVector [("q", mkQ (mkArray [2; 3; 4] (iota 24)) u_m)].

Definition ndd234 : Vector :=
  mkVector CartesianDifferentialND
    [("d_q", mkQ (mkArray [2; 3; 4] (iota 24)) u_m_s)].
End Examples.

(* ===================================================================== *)
(** * Properties *)

Local Arguments Qred : simpl never.
Local Arguments Qplus : simpl never.
Local Arguments Qminus : simpl never.
Local Arguments Qmult : simpl never.
Local Arguments Qdiv : simpl never.
Local Arguments unit_scale : simpl never.
Local Arguments nadd : simpl never.
Local Arguments nsub : simpl never.
Local Arguments nmul : simpl never.
Local Arguments nneg : simpl never.
Local Arguments nconv : simpl never.

(** Well-formedness of a concrete instance is decided by computation. *)
Ltac solve_nodup :=
  repeat (constructor; [simpl; intuition discriminate |]); constructor.
Ltac solve_wf := split; [reflexivity | split; [solve_nodup | reflexivity]].

(** ** Dictionaries and the class call *)

Lemma str_mem_In (s : string) (l : list string) :
  str_mem s l = true <-> In s l.
Proof.
  unfold str_mem. rewrite existsb_exists. split.
  - intros [x [Hin Heq]]. apply String.eqb_eq in Heq. now subst.
  - intros Hin. exists s. split; [assumption | apply String.eqb_refl].
Qed.

Lemma dict_get_In {V : Type} (k : string) (v : V) (d : Dict V) :
  NoDup (dict_keys d) -> In (k, v) d -> dict_get k d = Some v.
Proof.
  induction d as [| [k' v'] d IH]; simpl; intros Hnd Hin; [contradiction |].
  inversion Hnd as [| ? ? Hnotin Hnd']; subst.
  destruct Hin as [Heq | Hin].
  - inversion Heq; subst. now rewrite String.eqb_refl.
  - destruct (String.eqb_spec k k') as [-> | Hne].
    + exfalso. apply Hnotin. unfold dict_keys.
      change k' with (fst (k', v)). now apply in_map.
    + now apply IH.
Qed.

Lemma dict_set_fresh {V : Type} (k : string) (v : V) (d : Dict V) :
  ~ In k (dict_keys d) -> dict_set k v d = d ++ [(k, v)].
Proof.
  induction d as [| [k' v'] d IH]; simpl; intros Hn; [reflexivity |].
  destruct (String.eqb_spec k k') as [-> | Hne].
  - exfalso. apply Hn. now left.
  - f_equal. apply IH. intros Hin. apply Hn. now right.
Qed.

Lemma dict_of_items_acc {V : Type} (items acc : Dict V) :
  NoDup (dict_keys (acc ++ items)) ->
  fold_left (fun d kv => dict_set (fst kv) (snd kv) d) items acc = acc ++ items.
Proof.
  revert acc. induction items as [| [k v] items IH]; intros acc Hnd; simpl.
  - now rewrite app_nil_r.
  - rewrite dict_set_fresh.
    + rewrite IH; rewrite <- app_assoc; [reflexivity | exact Hnd].
    + unfold dict_keys in *. rewrite map_app in Hnd. simpl in Hnd.
      apply NoDup_remove_2 in Hnd. intros Hin. apply Hnd.
      apply in_or_app. now left.
Qed.

(** Items with distinct keys make the dictionary that lists them. *)
Lemma dict_of_items_nodup {V : Type} (items : Dict V) :
  NoDup (dict_keys items) -> dict_of_items items = items.
Proof.
  intros Hnd. unfold dict_of_items. now rewrite dict_of_items_acc.
Qed.

Lemma mapM_ext_in {A B : Type} (f g : A -> Result B) (l : list A) :
  (forall a, In a l -> f a = g a) -> mapM f l = mapM g l.
Proof.
  induction l as [| a l IH]; intros H; simpl; [reflexivity |].
  rewrite (H a (or_introl eq_refl)). rewrite IH; [reflexivity |].
  intros b Hb. apply H. now right.
Qed.

Lemma mapM_ok {A B : Type} (g : A -> B) (l : list A) :
  mapM (fun a => Ok (g a)) l = Ok (map g l).
Proof.
  induction l as [| a l IH]; simpl; [reflexivity |]. now rewrite IH.
Qed.

Lemma mapM_lookup_self (kw : Dict Quantity) :
  NoDup (dict_keys kw) ->
  mapM (fun f => match dict_get f kw with
                 | Some q => Ok (f, q)
                 | None => Err TypeError
                 end) (dict_keys kw) = Ok kw.
Proof.
  induction kw as [| [k v] kw IH]; intros Hnd; simpl; [reflexivity |].
  inversion Hnd as [| ? ? Hnotin Hnd']; subst.
  rewrite String.eqb_refl. simpl.
  rewrite (mapM_ext_in _ (fun f => match dict_get f kw with
                                   | Some q => Ok (f, q)
                                   | None => Err TypeError
                                   end)).
  - rewrite (IH Hnd'). reflexivity.
  - intros f Hf. destruct (String.eqb_spec f k) as [-> | Hne];
      [contradiction | reflexivity].
Qed.

(** Calling a concrete class on exactly its fields stores them. *)
Lemma cls_call_exact (C : Class) (kw : Dict Quantity) :
  cls_abstract C = false ->
  NoDup (cls_fields C) ->
  dict_keys kw = cls_fields C ->
  cls_call C kw = Ok (mkVector C kw).
Proof.
  intros Habs Hnd Hkeys. unfold cls_call. rewrite Habs.
  assert (Hall : forallb (fun k => str_mem k (cls_fields C)) (dict_keys kw) = true).
  { apply forallb_forall. intros k Hk. apply str_mem_In. now rewrite <- Hkeys. }
  rewrite Hall. simpl. rewrite <- Hkeys.
  rewrite mapM_lookup_self; [reflexivity | now rewrite Hkeys].
Qed.

Lemma cls_call_abstract (C : Class) (kw : Dict Quantity) :
  cls_abstract C = true -> cls_call C kw = Err TypeError.
Proof. intros H. unfold cls_call. now rewrite H. Qed.

Lemma cls_call_unexpected (C : Class) (kw : Dict Quantity) (k : string) :
  In k (dict_keys kw) -> ~ In k (cls_fields C) -> cls_call C kw = Err TypeError.
Proof.
  intros Hin Hnot. unfold cls_call. destruct (cls_abstract C); [reflexivity |].
  assert (Hall : forallb (fun k => str_mem k (cls_fields C)) (dict_keys kw) = false).
  { apply not_true_is_false. intros Ht.
    rewrite forallb_forall in Ht. apply Hnot. apply str_mem_In. now apply Ht. }
  now rewrite Hall.
Qed.

Lemma dict_mem_In {V : Type} (k : string) (d : Dict V) :
  In k (dict_keys d) -> dict_mem k d = true.
Proof.
  unfold dict_mem. induction d as [| [k' v] d IH]; simpl; [contradiction |].
  intros [-> | Hin].
  - now rewrite String.eqb_refl.
  - destruct (String.eqb k k'); [reflexivity | now apply IH].
Qed.

Lemma replace_fill_present (v : Vector) (fs : list string) (ch : Dict Quantity) :
  (forall f, In f fs -> In f (dict_keys ch)) -> replace_fill v fs ch = Ok ch.
Proof.
  induction fs as [| f fs IH]; intros H; simpl; [reflexivity |].
  rewrite dict_mem_In by (apply H; now left).
  apply IH. intros g Hg. apply H. now right.
Qed.

(** [replace] with a change for every field of the instance. *)
Lemma replace_all_fields (v : Vector) (ch : Dict Quantity) :
  vec_wf v ->
  dict_keys ch = cls_fields (vcls v) ->
  replace v ch = Ok (mkVector (vcls v) ch).
Proof.
  intros (Habs & Hnd & _) Hkeys. unfold replace.
  rewrite replace_fill_present by (intros f Hf; now rewrite Hkeys).
  simpl. now apply cls_call_exact.
Qed.

(** A comprehension over the items of an instance whose value
    expression never raises, followed by [replace]. *)
Lemma replace_comp_total (v : Vector) (g : string -> Quantity -> Quantity) :
  vec_wf v ->
  (ch <- dict_comp (fun k q => Ok (g k q)) (dataclass_items v) ;; replace v ch)
  = Ok (mkVector (vcls v) (map (fun kv => (fst kv, g (fst kv) (snd kv))) (comps v))).
Proof.
  intros Hwf. unfold dict_comp, dataclass_items.
  rewrite (mapM_ext_in _ (fun kv => Ok (fst kv, g (fst kv) (snd kv))))
    by reflexivity.
  rewrite mapM_ok. simpl.
  destruct Hwf as (Habs & Hnd & Hkeys).
  assert (Hk : dict_keys (map (fun kv => (fst kv, g (fst kv) (snd kv))) (comps v))
               = cls_fields (vcls v)).
  { unfold dict_keys in *. rewrite map_map. simpl. exact Hkeys. }
  rewrite dict_of_items_nodup by (now rewrite Hk).
  apply replace_all_fields; [now repeat split | exact Hk].
Qed.

Lemma dict_comp_ext_in (f g : string -> Quantity -> Result Quantity)
  (items : list (string * Quantity)) :
  (forall kv, In kv items -> f (fst kv) (snd kv) = g (fst kv) (snd kv)) ->
  dict_comp f items = dict_comp g items.
Proof.
  intros H. unfold dict_comp.
  rewrite (mapM_ext_in _ (fun kv => q <- g (fst kv) (snd kv) ;; Ok (fst kv, q)));
    [reflexivity |].
  intros kv Hin. now rewrite H.
Qed.

(* --------------------------------------------------------------------- *)
(** ** Consistent units *)

Lemma dim_eqb_eq (a b : Dim) : dim_eqb a b = true <-> a = b.
Proof.
  unfold dim_eqb. destruct a as [l1 t1 a1], b as [l2 t2 a2]; simpl.
  rewrite !andb_true_iff, !Z.eqb_eq. split.
  - intros [[-> ->] ->]. reflexivity.
  - intros H. inversion H. auto.
Qed.

Lemma dim_eqb_refl (a : Dim) : dim_eqb a a = true.
Proof. now apply dim_eqb_eq. Qed.

Lemma units_get_app (pt : Dim) (d d' : UnitsDict) :
  units_get pt (d ++ d') =
  match units_get pt d with
  | Some u => Some u
  | None => units_get pt d'
  end.
Proof.
  induction d as [| [pt' u] d IH]; simpl; [reflexivity |].
  destruct (dim_eqb pt pt'); [reflexivity | exact IH].
Qed.

Lemma first_units_acc (pt : Dim) (vs : list Quantity) (acc : UnitsDict) :
  units_get pt
    (fold_left (fun d v =>
                  let pt := physical_type (unit v) in
                  match units_get pt d with
                  | Some _ => d
                  | None => d ++ [(pt, unit v)]
                  end) vs acc) =
  match units_get pt acc with
  | Some u => Some u
  | None => option_map unit (first_of_dim pt vs)
  end.
Proof.
  revert acc. induction vs as [| v vs IH]; intros acc; simpl.
  - now destruct (units_get pt acc).
  - rewrite IH. clear IH.
    destruct (units_get (physical_type (unit v)) acc) as [u |] eqn:Hv.
    + destruct (units_get pt acc) as [u' |] eqn:Hpt; [reflexivity |].
      destruct (dim_eqb pt (physical_type (unit v))) eqn:Heq; [| reflexivity].
      apply dim_eqb_eq in Heq. subst pt. congruence.
    + rewrite units_get_app. simpl.
      destruct (units_get pt acc) as [u' |]; [reflexivity |].
      now destruct (dim_eqb pt (physical_type (unit v))).
Qed.

(** The dictionary built by the loop maps a physical type to the unit of
    the first component of that type. *)
Lemma units_get_first_units (pt : Dim) (vs : list Quantity) :
  units_get pt (first_units vs) = option_map unit (first_of_dim pt vs).
Proof. unfold first_units. now rewrite first_units_acc. Qed.

Lemma first_of_dim_In (q : Quantity) (vs : list Quantity) :
  In q vs ->
  exists q0, first_of_dim (physical_type (unit q)) vs = Some q0 /\
             In q0 vs /\
             physical_type (unit q0) = physical_type (unit q).
Proof.
  intros Hin. unfold first_of_dim.
  destruct (find _ vs) as [q0 |] eqn:Hf.
  - exists q0. apply find_some in Hf as [Hin0 Heq].
    apply dim_eqb_eq in Heq. now repeat split.
  - exfalso. apply (find_none _ _ Hf) in Hin.
    now rewrite dim_eqb_refl in Hin.
Qed.

Lemma find_first_index {A : Type} (p : A -> bool) (l : list A) (i : nat) (x : A) :
  nth_error l i = Some x ->
  p x = true ->
  (forall j y, j < i -> nth_error l j = Some y -> p y = false) ->
  find p l = Some x.
Proof.
  revert i. induction l as [| a l IH]; intros i Hn Hp Hbefore.
  - now destruct i.
  - destruct i as [| i]; simpl in *.
    + inversion Hn; subst. now rewrite Hp.
    + rewrite (Hbefore 0 a) by (simpl; (lia || reflexivity)).
      apply (IH i); [assumption | assumption |].
      intros j y Hj Hy. apply (Hbefore (S j) y); [lia | exact Hy].
Qed.

Lemma to_units_consistent_closed (v : Vector) :
  vec_wf v ->
  to_units_consistent v =
  Ok (mkVector (vcls v)
        (map (fun kv => (fst kv, q_convert (snd kv) (reference_unit v (snd kv))))
             (comps v))).
Proof.
  intros Hwf. unfold to_units_consistent.
  rewrite (dict_comp_ext_in _
             (fun _ q => Ok (q_convert q (reference_unit v q)))).
  - exact (replace_comp_total v (fun _ q => q_convert q (reference_unit v q)) Hwf).
  - intros [k q] Hin. simpl.
    assert (Hq : In q (dataclass_values v)).
    { unfold dataclass_values. change q with (snd (k, q)). now apply in_map. }
    destruct (first_of_dim_In q _ Hq) as (q0 & Hf & _ & Hdim).
    rewrite units_get_first_units, Hf. simpl.
    unfold q_to_units, reference_unit. rewrite Hf, Hdim, dim_eqb_refl.
    reflexivity.
Qed.

(** C1: on an instance, [to_units(ToUnitsOptions.consistent)] returns an
    instance of the same class with the same component names in which
    component [i] is the [i]-th component converted (by [to_units], which
    succeeds) to the unit of the first component, in declared order, that
    has its physical type; a component that no earlier component shares
    its physical type with keeps its unit. *)
Theorem to_units_consistent_first_seen (v : Vector) (Hwf : vec_wf v) :
  exists v',
    to_units_consistent v = Ok v' /\
    vcls v' = vcls v /\
    dict_keys (comps v') = dict_keys (comps v) /\
    forall i k q,
      nth_error (comps v) i = Some (k, q) ->
      exists q0 q',
        first_of_dim (physical_type (unit q)) (dataclass_values v) = Some q0 /\
        q_to_units q (unit q0) = Ok q' /\
        nth_error (comps v') i = Some (k, q') /\
        unit q' = unit q0 /\
        ((forall j kj qj, j < i -> nth_error (comps v) j = Some (kj, qj) ->
                          physical_type (unit qj) <> physical_type (unit q)) ->
         unit q' = unit q).
Proof.
  eexists. split; [apply (to_units_consistent_closed v Hwf) |].
  simpl. split; [reflexivity |]. split.
  { unfold dict_keys. rewrite map_map. reflexivity. }
  intros i k q Hnth.
  assert (Hq : In q (dataclass_values v)).
  { unfold dataclass_values. change q with (snd (k, q)).
    apply in_map. eapply nth_error_In; eassumption. }
  destruct (first_of_dim_In q _ Hq) as (q0 & Hf & _ & Hdim).
  exists q0, (q_convert q (unit q0)). split; [exact Hf |]. split.
  { unfold q_to_units. now rewrite Hdim, dim_eqb_refl. }
  split.
  { rewrite nth_error_map, Hnth. simpl. unfold reference_unit. now rewrite Hf. }
  split; [reflexivity |].
  intros Hbefore. simpl.
  assert (Hq0 : first_of_dim (physical_type (unit q)) (dataclass_values v) = Some q).
  { unfold first_of_dim, dataclass_values.
    apply (find_first_index _ _ i).
    - rewrite nth_error_map, Hnth. reflexivity.
    - apply dim_eqb_refl.
    - intros j y Hj Hy. rewrite nth_error_map in Hy.
      destruct (nth_error (comps v) j) as [[kj qj] |] eqn:Hnj; [| discriminate].
      simpl in Hy. inversion Hy; subst y.
      apply not_true_is_false. intros Heq. apply dim_eqb_eq in Heq.
      apply (Hbefore j kj qj Hj Hnj). now symmetry. }
  rewrite Hq0 in Hf. now inversion Hf.
Qed.

Lemma to_units_consistent_first_seen_witness :
  vec_wf Examples.cart_m_km /\
  exists v',
    to_units_consistent Examples.cart_m_km = Ok v' /\
    vcls v' = vcls Examples.cart_m_km /\
    dict_keys (comps v') = dict_keys (comps Examples.cart_m_km) /\
    forall i k q,
      nth_error (comps Examples.cart_m_km) i = Some (k, q) ->
      exists q0 q',
        first_of_dim (physical_type (unit q))
                     (dataclass_values Examples.cart_m_km) = Some q0 /\
        q_to_units q (unit q0) = Ok q' /\
        nth_error (comps v') i = Some (k, q') /\
        unit q' = unit q0 /\
        ((forall j kj qj, j < i ->
            nth_error (comps Examples.cart_m_km) j = Some (kj, qj) ->
            physical_type (unit qj) <> physical_type (unit q)) ->
         unit q' = unit q).
Proof.
  assert (Hwf : vec_wf Examples.cart_m_km) by solve_wf.
  split; [exact Hwf | exact (to_units_consistent_first_seen _ Hwf)].
Defined.

(** The docstring example: [x = 1 m, y = 2 km] becomes [x = 1 m, y = 2000 m]. *)
Example to_units_consistent_m_km :
  to_units_consistent Examples.cart_m_km =
  Ok (mkVector Builtin.Cartesian2DVector
        [("x", scalar 1 u_m); ("y", scalar 2000 u_m)]).
Proof. reflexivity. Qed.

(* --------------------------------------------------------------------- *)
(** ** Construction from a stacked array and from a mapping *)

Lemma last_dim_app (batch : Shape) (k : nat) : last_dim (batch ++ [k]) = Ok k.
Proof. unfold last_dim. now rewrite rev_app_distr. Qed.

Lemma q_index_last_ok (obj : Quantity) (batch : Shape) (k i : nat) :
  shape (value obj) = batch ++ [k] ->
  i < k ->
  q_index_last obj i = Ok (mkQ (take_last_axis (value obj) i) (unit obj)).
Proof.
  intros Hs Hi. unfold q_index_last, index_last.
  rewrite Hs, last_dim_app. simpl.
  apply Nat.ltb_lt in Hi. now rewrite Hi.
Qed.

Lemma keys_combine (fs : list string) (qs : list Quantity) :
  List.length qs = List.length fs -> dict_keys (combine fs qs) = fs.
Proof.
  revert qs. induction fs as [| f fs IH]; intros [| q qs] H; simpl in *;
    try reflexivity; try discriminate.
  f_equal. apply IH. now inversion H.
Qed.

Lemma slices_from (obj : Quantity) (fs : list string) :
  forall (i0 : nat) (qs : list Quantity),
    List.length qs = List.length fs ->
    (forall j, j < List.length fs -> q_index_last obj (i0 + j) = Ok (nth j qs obj)) ->
    mapM (fun p => q <- q_index_last obj (fst p) ;; Ok (snd p, q))
         (enumerate_from i0 fs) = Ok (combine fs qs).
Proof.
  induction fs as [| f fs IH]; intros i0 [| q qs] Hlen Hq; simpl in *;
    try reflexivity; try discriminate.
  pose proof (Hq 0 (Nat.lt_0_succ _)) as H0. rewrite Nat.add_0_r in H0.
  simpl in H0. rewrite H0. simpl.
  rewrite (IH (S i0) qs).
  - reflexivity.
  - now inversion Hlen.
  - intros j Hj. specialize (Hq (S j) (proj1 (Nat.succ_lt_mono _ _) Hj)).
    simpl in Hq. now rewrite Nat.add_succ_r in Hq.
Qed.

Lemma constructor_quantity_closed (C : Class) (obj : Quantity) (batch : Shape)
  (qs : list Quantity) :
  cls_abstract C = false ->
  NoDup (cls_fields C) ->
  shape (value obj) = batch ++ [List.length (cls_fields C)] ->
  List.length qs = List.length (cls_fields C) ->
  (forall i, i < List.length (cls_fields C) ->
             q_index_last obj i = Ok (nth i qs obj)) ->
  constructor_quantity C obj = Ok (mkVector C (combine (cls_fields C) qs)).
Proof.
  intros Habs Hnd Hs Hlen Hq. unfold constructor_quantity.
  rewrite Hs, last_dim_app. simpl. rewrite Nat.eqb_refl. simpl.
  unfold slice_comps. rewrite (slices_from obj (cls_fields C) 0 qs Hlen Hq).
  simpl. rewrite dict_of_items_nodup by (now rewrite keys_combine).
  apply cls_call_exact; [assumption | assumption | now apply keys_combine].
Qed.

(** C2: for a concrete class with [n] fields and a stacked array whose
    trailing axis has length [n], constructing from the array and
    constructing from the mapping [{name_i: q[..., i]}] give the same
    instance, whose components are these slices in field order. *)
Theorem constructor_quantity_eq_mapping (C : Class) (obj : Quantity)
  (batch : Shape) (qs : list Quantity)
  (Hconcrete : cls_abstract C = false)
  (Hfields : NoDup (cls_fields C))
  (Hshape : shape (value obj) = batch ++ [List.length (cls_fields C)])
  (Hlen : List.length qs = List.length (cls_fields C))
  (Hslices : forall i, i < List.length (cls_fields C) ->
                       q_index_last obj i = Ok (nth i qs obj)) :
  constructor_quantity C obj =
  constructor_mapping C (dict_of_items (combine (cls_fields C) qs)) /\
  constructor_quantity C obj = Ok (mkVector C (combine (cls_fields C) qs)).
Proof.
  rewrite (constructor_quantity_closed C obj batch qs) by assumption.
  split; [| reflexivity].
  unfold constructor_mapping.
  rewrite dict_of_items_nodup by (now rewrite keys_combine).
  symmetry. apply cls_call_exact; [assumption | assumption |].
  now apply keys_combine.
Qed.

(** The example of the specification: [{x: 1 m, y: 2 m, z: 3 m}] and the
    stacked array [[1, 2, 3] m]. *)
Lemma constructor_quantity_eq_mapping_witness :
  constructor_quantity Builtin.Cartesian3DVector Examples.q123 =
  constructor_mapping Builtin.Cartesian3DVector Examples.xs123 /\
  constructor_quantity Builtin.Cartesian3DVector Examples.q123 =
  Ok (mkVector Builtin.Cartesian3DVector Examples.xs123).
Proof.
  apply (constructor_quantity_eq_mapping Builtin.Cartesian3DVector Examples.q123
           [] [scalar 1 u_m; scalar 2 u_m; scalar 3 u_m]).
  - reflexivity.
  - solve_nodup.
  - reflexivity.
  - reflexivity.
  - intros i Hi. simpl in Hi.
    destruct i as [| [| [| i]]]; [reflexivity | reflexivity | reflexivity | lia].
Defined.

Lemma nth_combine_seq {A : Type} (g : nat -> A) (fs : list string) :
  forall (i0 i : nat) (f : string),
    nth_error fs i = Some f ->
    nth_error (combine fs (map g (seq i0 (List.length fs)))) i = Some (f, g (i0 + i)).
Proof.
  induction fs as [| f' fs IH]; intros i0 [| i] f H; simpl in *;
    try discriminate.
  - inversion H. now rewrite Nat.add_0_r.
  - rewrite (IH (S i0) i f H). now rewrite Nat.add_succ_r.
Qed.

(** C7: for a concrete class with [n] fields, construction from a
    stacked array with trailing dimension [k] fails with the shape
    mismatch error exactly when [k <> n], and for [k = n] it succeeds and
    stores [obj[..., i]] in the [i]-th declared field. *)
Theorem constructor_quantity_shape_check (C : Class) (obj : Quantity)
  (batch : Shape) (k : nat)
  (Hconcrete : cls_abstract C = false)
  (Hfields : NoDup (cls_fields C))
  (Hshape : shape (value obj) = batch ++ [k]) :
  (constructor_quantity C obj = Err ShapeMismatchError <->
   k <> List.length (cls_fields C)) /\
  (k = List.length (cls_fields C) ->
   exists v,
     constructor_quantity C obj = Ok v /\
     vcls v = C /\
     forall i f, nth_error (cls_fields C) i = Some f ->
       exists qi, q_index_last obj i = Ok qi /\
                  nth_error (comps v) i = Some (f, qi)).
Proof.
  set (n := List.length (cls_fields C)).
  set (slice := fun i => mkQ (take_last_axis (value obj) i) (unit obj)).
  assert (Hok : k = n ->
                constructor_quantity C obj =
                Ok (mkVector C (combine (cls_fields C) (map slice (seq 0 n))))).
  { intros ->. apply (constructor_quantity_closed C obj batch); try assumption.
    - now rewrite length_map, length_seq.
    - intros i Hi. rewrite (nth_indep _ obj (slice 0)) by
        (now rewrite length_map, length_seq).
      rewrite (map_nth slice), seq_nth by exact Hi. simpl.
      now apply (q_index_last_ok obj batch n). }
  split.
  - split.
    + intros Herr Heq. rewrite (Hok Heq) in Herr. discriminate.
    + intros Hne. unfold constructor_quantity.
      rewrite Hshape, last_dim_app. simpl.
      apply Nat.eqb_neq in Hne. fold n. now rewrite Hne.
  - intros Heq. eexists. split; [apply (Hok Heq) |]. simpl.
    split; [reflexivity |].
    intros i f Hnth. exists (slice i). split.
    + apply (q_index_last_ok obj batch k); [assumption |].
      rewrite Heq. apply nth_error_Some. now rewrite Hnth.
    + apply (nth_combine_seq slice (cls_fields C) 0 i f Hnth).
Qed.

Lemma constructor_quantity_shape_check_witness :
  (constructor_quantity Builtin.Cartesian2DVector Examples.q123
   = Err ShapeMismatchError <->
   3 <> List.length (cls_fields Builtin.Cartesian2DVector)) /\
  (3 = List.length (cls_fields Builtin.Cartesian2DVector) ->
   exists v,
     constructor_quantity Builtin.Cartesian2DVector Examples.q123 = Ok v /\
     vcls v = Builtin.Cartesian2DVector /\
     forall i f, nth_error (cls_fields Builtin.Cartesian2DVector) i = Some f ->
       exists qi, q_index_last Examples.q123 i = Ok qi /\
                  nth_error (comps v) i = Some (f, qi)).
Proof.
  apply (constructor_quantity_shape_check Builtin.Cartesian2DVector
           Examples.q123 [] 3).
  - reflexivity.
  - solve_nodup.
  - reflexivity.
Defined.

(* --------------------------------------------------------------------- *)
(** ** Copy-construction from another vector *)

Lemma type_is_isinstance (v : Vector) (C : Class) :
  cls_wf (vcls v) -> type_is v C = true -> isinstance v (cls_name C) = true.
Proof.
  unfold cls_wf, type_is, isinstance. intros Hwf Heq.
  apply String.eqb_eq in Heq. rewrite <- Heq. apply str_mem_In.
  destruct (cls_mro (vcls v)) as [| c mro]; simpl in *; [discriminate |].
  inversion Hwf. now left.
Qed.

(** C3, as the code has it: copy-construction returns the very same
    reference and leaves the store as it is when the type is exactly [C];
    raises TypeError when the argument is not an instance of [C]; and
    otherwise calls [C] on the components of the argument, which yields
    a new instance of [C] holding these components when [C] is concrete
    and declares exactly the fields of the argument, and raises TypeError
    when [C] is abstract or lacks one of the argument's fields. *)
Theorem constructor_vector_cases (C : Class) (r : Ref) (h : Heap) (v : Vector)
  (Hlookup : nth_error h r = Some v)
  (Hwf : vec_wf v)
  (Hcls : cls_wf (vcls v)) :
  (type_is v C = true -> constructor_vector C r h = Ok (r, h)) /\
  (isinstance v (cls_name C) = false ->
   constructor_vector C r h = Err TypeError) /\
  (isinstance v (cls_name C) = true -> type_is v C = false ->
   cls_abstract C = false -> NoDup (cls_fields C) ->
   dict_keys (comps v) = cls_fields C ->
   constructor_vector C r h =
   Ok (List.length h, h ++ [mkVector C (comps v)])) /\
  (isinstance v (cls_name C) = true -> type_is v C = false ->
   cls_abstract C = true \/
   (exists k, In k (dict_keys (comps v)) /\ ~ In k (cls_fields C)) ->
   constructor_vector C r h = Err TypeError).
Proof.
  assert (Hitems : dict_of_items (dataclass_items v) = comps v).
  { apply dict_of_items_nodup. destruct Hwf as (_ & Hnd & Hk). now rewrite Hk. }
  unfold constructor_vector. rewrite Hlookup. repeat split.
  - intros Hty. rewrite (type_is_isinstance v C Hcls Hty). simpl.
    now rewrite Hty.
  - intros Hinst. now rewrite Hinst.
  - intros Hinst Hty Habs Hnd Hkeys. rewrite Hinst, Hty. simpl.
    rewrite Hitems, cls_call_exact by assumption. reflexivity.
  - intros Hinst Hty Hbad. rewrite Hinst, Hty. simpl. rewrite Hitems.
    destruct Hbad as [Habs | (k & Hin & Hnot)].
    + now rewrite cls_call_abstract.
    + now rewrite (cls_call_unexpected C (comps v) k).
Qed.

Lemma constructor_vector_cases_witness :
  nth_error [Examples.my_cart] 0 = Some Examples.my_cart /\
  vec_wf Examples.my_cart /\
  cls_wf (vcls Examples.my_cart) /\
  constructor_vector Builtin.Cartesian2DVector 0 [Examples.my_cart] =
  Ok (1, [Examples.my_cart;
          mkVector Builtin.Cartesian2DVector (comps Examples.my_cart)]).
Proof.
  assert (Hwf : vec_wf Examples.my_cart) by solve_wf.
  assert (Hcls : cls_wf (vcls Examples.my_cart)) by reflexivity.
  split; [reflexivity |]. split; [exact Hwf |]. split; [exact Hcls |].
  destruct (constructor_vector_cases Builtin.Cartesian2DVector 0
              [Examples.my_cart] Examples.my_cart eq_refl Hwf Hcls)
    as (_ & _ & Hnew & _).
  apply Hnew; try reflexivity. solve_nodup.
Defined.

(** The claim as first written fails on an abstract parent class: a
    [Cartesian2DVector] instance is an instance of the strict superclass
    [Abstract2DVector], and copy-construction into it raises TypeError
    where a new [Abstract2DVector] instance was promised. *)
Lemma constructor_vector_abstract_parent :
  isinstance Examples.cart_m_km (cls_name Builtin.Abstract2DVector) = true /\
  type_is Examples.cart_m_km Builtin.Abstract2DVector = false /\
  constructor_vector Builtin.Abstract2DVector 0 [Examples.cart_m_km]
  = Err TypeError /\
  ~ (exists r' h' v',
       constructor_vector Builtin.Abstract2DVector 0 [Examples.cart_m_km]
       = Ok (r', h') /\
       nth_error h' r' = Some v' /\
       vcls v' = Builtin.Abstract2DVector).
Proof.
  repeat split; try reflexivity.
  intros (r' & h' & v' & H & _). discriminate H.
Qed.

(* --------------------------------------------------------------------- *)
(** ** Broadcasting of equal shapes and arithmetic on quantities *)

Lemma broadcast_rev_same (t : Shape) : broadcast_rev t t = Ok t.
Proof.
  induction t as [| a t IH]; simpl; [reflexivity |].
  rewrite IH. simpl. now rewrite Nat.eqb_refl.
Qed.

Lemma broadcast2_same (s : Shape) : broadcast2 s s = Ok s.
Proof.
  unfold broadcast2. rewrite broadcast_rev_same. simpl. now rewrite rev_involutive.
Qed.

Lemma broadcast_rev_nil_r (t : Shape) : broadcast_rev t [] = Ok t.
Proof. now destruct t. Qed.

Lemma broadcast2_nil_r (s : Shape) : broadcast2 s [] = Ok s.
Proof.
  unfold broadcast2. change (rev []) with (@nil nat).
  rewrite broadcast_rev_nil_r. unfold bind. now rewrite rev_involutive.
Qed.

Lemma broadcast_to_same (a : Array) : broadcast_to a (shape a) = a.
Proof.
  unfold broadcast_to. destruct (list_eq_dec Nat.eq_dec (shape a) (shape a));
    [reflexivity | contradiction].
Qed.

Lemma shape_broadcast_to (a : Array) (s : Shape) : shape (broadcast_to a s) = s.
Proof.
  unfold broadcast_to. destruct (list_eq_dec Nat.eq_dec (shape a) s);
    [assumption | reflexivity].
Qed.

Lemma broadcast_operands_same (s : Shape) : broadcast_operands s s = Ok s.
Proof.
  unfold broadcast_operands. simpl. rewrite broadcast2_nil_r. simpl.
  now rewrite broadcast2_same.
Qed.

Lemma broadcast_operands_nil_r (s : Shape) : broadcast_operands s [] = Ok s.
Proof.
  unfold broadcast_operands. simpl.
  change (broadcast2 [] []) with (Ok (@nil nat)). simpl.
  now rewrite broadcast2_nil_r.
Qed.

Lemma zip_with_map_r (f : Num -> Num -> Num) (g : Num -> Num) (xs : list Num) :
  zip_with f xs (map g xs) = map (fun x => f x (g x)) xs.
Proof.
  unfold zip_with. induction xs as [| x xs IH]; simpl; [reflexivity |].
  now rewrite IH.
Qed.

Lemma unit_scale_nonzero (u : Unit) : ~ (unit_scale u == 0)%Q.
Proof. unfold unit_scale, Qeq. simpl. lia. Qed.

Lemma convert_same_unit (x : Q) (u : Unit) :
  (Qred (x * (unit_scale u / unit_scale u)) == x)%Q.
Proof.
  rewrite Qred_correct. field. apply unit_scale_nonzero.
Qed.

(** An element-wise operation on operands of one shape. *)
Lemma abinop_same_shape (f : Num -> Num -> Num) (a b : Array) :
  shape b = shape a ->
  abinop f a b = Ok (mkArray (shape a) (zip_with f (data a) (data b))).
Proof.
  intros Hs. unfold abinop. rewrite Hs, broadcast_operands_same. simpl.
  rewrite broadcast_to_same. rewrite <- Hs at 2. now rewrite broadcast_to_same.
Qed.

(** The operands of a binary operation between a quantity and itself. *)
Lemma abinop_self_convert (f : Num -> Num -> Num) (v : Quantity) :
  abinop f (value v) (value (q_convert v (unit v))) =
  Ok (mkArray (shape (value v))
        (map (fun x => f x (nconv (unit_scale (unit v) / unit_scale (unit v)) x))
             (data (value v)))).
Proof.
  rewrite abinop_same_shape by reflexivity.
  unfold q_convert, amap. simpl. now rewrite zip_with_map_r.
Qed.

Lemma nadd_self_conv (x : Num) (u : Unit) :
  nadd x (nconv (unit_scale u / unit_scale u) x) = nmul (Fin 2) x.
Proof.
  destruct x as [a | | |]; try reflexivity.
  unfold nadd, nconv, nmul. f_equal. apply Qred_complete.
  rewrite convert_same_unit. ring.
Qed.

Lemma nsub_self_conv (x : Num) (u : Unit) :
  nsub x (nconv (unit_scale u / unit_scale u) x) = self_difference x.
Proof.
  destruct x as [a | | |]; try reflexivity.
  unfold nsub, nconv, self_difference. f_equal.
  change 0%Q with (Qred 0). apply Qred_complete.
  rewrite convert_same_unit. ring.
Qed.

Lemma qadd_self (v : Quantity) : qadd v v = Ok (qscale 2 v).
Proof.
  unfold qadd, q_to_units. rewrite dim_eqb_refl. simpl.
  rewrite abinop_self_convert. simpl. unfold qscale, amap. do 3 f_equal.
  apply map_ext. intros x. apply nadd_self_conv.
Qed.

(** [v - v] is zero at the finite entries of [v] and NaN at the others. *)
Lemma qsub_self (v : Quantity) : qsub v v = Ok (q_self_difference v).
Proof.
  unfold qsub, q_to_units. rewrite dim_eqb_refl. simpl.
  rewrite abinop_self_convert. simpl. unfold q_self_difference, amap.
  do 3 f_equal. apply map_ext. intros x. apply nsub_self_conv.
Qed.

Lemma q_self_difference_finite (v : Quantity) :
  q_finite v -> q_self_difference v = qzeros_like v.
Proof.
  intros Hfin. unfold q_self_difference, qzeros_like, amap. do 2 f_equal.
  apply map_ext_in. intros x Hx. unfold q_finite in Hfin.
  rewrite Forall_forall in Hfin. specialize (Hfin x Hx).
  now destruct x.
Qed.

Lemma getattr_item (v : Vector) (k : string) (q : Quantity) :
  vec_wf v -> In (k, q) (comps v) -> getattr v k = Ok q.
Proof.
  intros (_ & Hnd & Hk) Hin. unfold getattr.
  rewrite (dict_get_In k q); [reflexivity | now rewrite Hk | assumption].
Qed.

Lemma cls_call_vcls (C : Class) (kw : Dict Quantity) (r : Vector) :
  cls_call C kw = Ok r -> vcls r = C.
Proof.
  unfold cls_call. destruct (cls_abstract C); [discriminate |].
  destruct (negb _); [discriminate |].
  destruct (mapM _ _); simpl; [| discriminate].
  intros H. now inversion H.
Qed.

Lemma replace_vcls (v : Vector) (ch : Dict Quantity) (r : Vector) :
  replace v ch = Ok r -> vcls r = vcls v.
Proof.
  unfold replace. destruct (replace_fill _ _ _); simpl; [| discriminate].
  apply cls_call_vcls.
Qed.

Lemma bind_vcls (m : Result (Dict Quantity)) (v r : Vector) :
  (ch <- m ;; replace v ch) = Ok r -> vcls r = vcls v.
Proof. destruct m; simpl; [apply replace_vcls | discriminate]. Qed.

(* --------------------------------------------------------------------- *)
(** ** AdditionMixin *)

(** C4, as the code has it: for a differential [d] that is an instance
    of its declared Cartesian class, [d + d] has every component doubled;
    [d - d] has, in the shape and unit of each component of [d], zero at
    the finite entries and NaN at the infinite and NaN entries, so that
    it is the zero vector when all entries of [d] are finite; a sum or
    difference that is returned has the class of [d]; and an operand
    that is not an instance of the declared Cartesian class makes both
    operations raise TypeError. *)
Theorem addition_mixin_self (d : Vector)
  (Hwf : vec_wf d)
  (Hcart : isinstance d (cls_cartesian (vcls d)) = true) :
  mixin_add d (PyVec d) =
  Ok (mkVector (vcls d) (map (fun kv => (fst kv, qscale 2 (snd kv))) (comps d))) /\
  mixin_sub d (PyVec d) =
  Ok (mkVector (vcls d)
        (map (fun kv => (fst kv, q_self_difference (snd kv))) (comps d))) /\
  ((forall k q, In (k, q) (comps d) -> q_finite q) ->
   mixin_sub d (PyVec d) =
   Ok (mkVector (vcls d) (map (fun kv => (fst kv, qzeros_like (snd kv))) (comps d)))) /\
  (forall other r,
     mixin_add d other = Ok r \/ mixin_sub d other = Ok r -> vcls r = vcls d) /\
  (forall other,
     match other with
     | PyVec o => isinstance o (cls_cartesian (vcls d)) = false
     | _ => True
     end ->
     mixin_add d other = Err TypeError /\ mixin_sub d other = Err TypeError).
Proof.
  assert (Hsub : mixin_sub d (PyVec d) =
                 Ok (mkVector (vcls d)
                       (map (fun kv => (fst kv, q_self_difference (snd kv)))
                            (comps d)))).
  { unfold mixin_sub. rewrite Hcart. simpl.
    rewrite (dict_comp_ext_in _ (fun _ q => Ok (q_self_difference q))).
    - exact (replace_comp_total d (fun _ q => q_self_difference q) Hwf).
    - intros [k q] Hin. simpl. rewrite (getattr_item d k q Hwf Hin). simpl.
      apply qsub_self. }
  split; [| split; [exact Hsub | split; [| split]]].
  - unfold mixin_add. rewrite Hcart. simpl.
    rewrite (dict_comp_ext_in _ (fun _ q => Ok (qscale 2 q))).
    + exact (replace_comp_total d (fun _ q => qscale 2 q) Hwf).
    + intros [k q] Hin. simpl. rewrite (getattr_item d k q Hwf Hin). simpl.
      apply qadd_self.
  - intros Hfin. rewrite Hsub. do 2 f_equal. apply map_ext_in.
    intros [k q] Hin. simpl. f_equal.
    apply q_self_difference_finite. now apply (Hfin k).
  - intros other r [H | H]; destruct other as [| | | | | o]; try discriminate;
      simpl in H;
      destruct (negb (isinstance o (cls_cartesian (vcls d)))); try discriminate;
      now apply bind_vcls in H.
  - intros other Hother. split.
    + destruct other as [| | | | | o]; try reflexivity.
      simpl. now rewrite Hother.
    + destruct other as [| | | | | o]; try reflexivity.
      simpl. now rewrite Hother.
Qed.

Lemma addition_mixin_self_witness :
  vec_wf Examples.dif123 /\
  isinstance Examples.dif123 (cls_cartesian (vcls Examples.dif123)) = true /\
  mixin_add Examples.dif123 (PyVec Examples.dif123) =
  Ok (mkVector Builtin.CartesianDifferential3D
        [("d_x", scalar 2 u_km_s); ("d_y", scalar 4 u_km_s);
         ("d_z", scalar 6 u_km_s)]) /\
  mixin_sub Examples.dif123 (PyVec Examples.dif123) =
  Ok (mkVector Builtin.CartesianDifferential3D
        [("d_x", scalar 0 u_km_s); ("d_y", scalar 0 u_km_s);
         ("d_z", scalar 0 u_km_s)]) /\
  mixin_add Examples.dif123 (PyVec Examples.cart_m_km) = Err TypeError /\
  mixin_sub Examples.dif123 (PyInt 1) = Err TypeError.
Proof.
  assert (Hwf : vec_wf Examples.dif123) by solve_wf.
  assert (Hc : isinstance Examples.dif123
                 (cls_cartesian (vcls Examples.dif123)) = true) by reflexivity.
  destruct (addition_mixin_self Examples.dif123 Hwf Hc)
    as (Hadd & _ & Hsub & _ & Herr).
  split; [exact Hwf |]. split; [exact Hc |].
  split; [exact Hadd |]. split.
  - apply Hsub. intros k q [H | [H | [H | []]]]; inversion H; subst;
      repeat constructor.
  - split.
    + exact (proj1 (Herr (PyVec Examples.cart_m_km) eq_refl)).
    + exact (proj2 (Herr (PyInt 1) Logic.I)).
Defined.

(** The claim as first written fails at an infinite component: for the
    differential with [d_x = inf km/s], an instance of its declared
    Cartesian class, the component [d_x] of [d - d] is NaN, so that
    [d - d] is not the zero vector. *)
Lemma addition_mixin_sub_infinite :
  vec_wf Examples.dif_inf /\
  isinstance Examples.dif_inf (cls_cartesian (vcls Examples.dif_inf)) = true /\
  mixin_sub Examples.dif_inf (PyVec Examples.dif_inf) =
  Ok (mkVector Builtin.CartesianDifferential3D
        [("d_x", mkQ (mkArray [] [NaN]) u_km_s); ("d_y", scalar 0 u_km_s);
         ("d_z", scalar 0 u_km_s)]) /\
  mixin_sub Examples.dif_inf (PyVec Examples.dif_inf) <>
  Ok (mkVector (vcls Examples.dif_inf)
        (map (fun kv => (fst kv, qzeros_like (snd kv))) (comps Examples.dif_inf))).
Proof.
  split; [solve_wf |]. split; [reflexivity |]. split; [reflexivity |].
  intros H. vm_compute in H. discriminate H.
Qed.

(* --------------------------------------------------------------------- *)
(** ** Differential times Quantity *)

Lemma qmul_scalar_ok (v t : Quantity) :
  shape (value t) = [] -> qmul v t = Ok (qmul_by_scalar v t).
Proof.
  intros Ht. unfold qmul, abinop. rewrite Ht, broadcast_operands_nil_r. simpl.
  rewrite broadcast_to_same. reflexivity.
Qed.

Lemma mapM_lookup_ok (kw : Dict Quantity) (fs : list string) :
  (forall f, In f fs -> In f (dict_keys kw)) ->
  exists cs,
    mapM (fun f => match dict_get f kw with
                   | Some q => Ok (f, q)
                   | None => Err TypeError
                   end) fs = Ok cs /\
    dict_keys cs = fs /\
    (forall f q, In (f, q) cs -> dict_get f kw = Some q).
Proof.
  induction fs as [| f fs IH]; intros H; simpl.
  - exists []. repeat split. intros f q [].
  - destruct IH as (cs & Hcs & Hk & Hget); [intros g Hg; apply H; now right |].
    assert (Hmem : dict_mem f kw = true) by (apply dict_mem_In, H; now left).
    unfold dict_mem in Hmem. destruct (dict_get f kw) as [q |] eqn:Hq;
      [| discriminate].
    exists ((f, q) :: cs). simpl. rewrite Hcs. simpl. repeat split.
    + now rewrite Hk.
    + intros g q' [Heq | Hin]; [inversion Heq; now subst | now apply Hget].
Qed.

(** Calling a concrete class on a dictionary with exactly its field
    names, in any order. *)
Lemma cls_call_same_keys (C : Class) (kw : Dict Quantity) :
  cls_abstract C = false ->
  NoDup (cls_fields C) ->
  (forall f, In f (cls_fields C) <-> In f (dict_keys kw)) ->
  exists r,
    cls_call C kw = Ok r /\ vcls r = C /\ dict_keys (comps r) = cls_fields C /\
    forall f q, dict_get f kw = Some q -> In f (dict_keys kw) ->
                getattr r f = Ok q.
Proof.
  intros Habs Hnd Hsame. unfold cls_call. rewrite Habs.
  assert (Hall : forallb (fun k => str_mem k (cls_fields C)) (dict_keys kw) = true).
  { apply forallb_forall. intros k Hk. apply str_mem_In. now apply Hsame. }
  rewrite Hall. simpl.
  destruct (mapM_lookup_ok kw (cls_fields C)) as (cs & Hcs & Hk & Hget).
  { intros f Hf. now apply Hsame. }
  rewrite Hcs. simpl. eexists. split; [reflexivity |]. simpl.
  split; [reflexivity |]. split; [exact Hk |].
  intros f q Hq Hin. unfold getattr. simpl.
  assert (Hf : In f (dict_keys cs)) by (rewrite Hk; now apply Hsame).
  unfold dict_keys in Hf. apply in_map_iff in Hf as ([f' q'] & Heq & Hin').
  simpl in Heq. subst f'.
  rewrite (dict_get_In f q' cs); [| now rewrite Hk | exact Hin'].
  apply Hget in Hin'. congruence.
Qed.

(** C5: for a differential [d] and a scalar Quantity [t], [d * t] is the
    integral class called on the mapping that sends each component name
    without its first two characters to that component times [t]; the
    result is an instance of the integral class whose component [s]
    holds [d_s * t]. *)
Theorem dif_mul_integral (d : Vector) (t : Quantity) (icls : Class)
  (Hwf : vec_wf d)
  (Hscalar : shape (value t) = [])
  (Hint : cls_integral (vcls d) = Some icls)
  (Hconcrete : cls_abstract icls = false)
  (Hfields : NoDup (cls_fields icls))
  (Hstrip : NoDup (map (str_drop 2) (cls_fields (vcls d))))
  (Hnames : forall f, In f (cls_fields icls) <->
                      In f (map (str_drop 2) (cls_fields (vcls d)))) :
  exists r,
    dif_mul d t =
    constructor_mapping icls
      (map (fun kv => (str_drop 2 (fst kv), qmul_by_scalar (snd kv) t)) (comps d)) /\
    dif_mul d t = Ok r /\
    vcls r = icls /\
    dict_keys (comps r) = cls_fields icls /\
    (forall k v, In (k, v) (comps d) ->
       qmul v t = Ok (qmul_by_scalar v t) /\
       getattr r (str_drop 2 k) = Ok (qmul_by_scalar v t)) /\
    (forall (s : string) v, In (String.append "d_" s, v) (comps d) ->
       getattr r s = Ok (qmul_by_scalar v t)).
Proof.
  set (m := map (fun kv => (str_drop 2 (fst kv), qmul_by_scalar (snd kv) t)) (comps d)).
  destruct Hwf as (Habs & Hnd & Hkeys).
  assert (Hmk : dict_keys m = map (str_drop 2) (cls_fields (vcls d))).
  { unfold m, dict_keys. rewrite map_map. simpl.
    rewrite <- Hkeys. unfold dict_keys. now rewrite map_map. }
  assert (Hcomp : dict_comp_keys (str_drop 2) (fun _ v => qmul v t)
                    (dataclass_items d) = Ok m).
  { unfold dict_comp_keys, dataclass_items.
    rewrite (mapM_ext_in _ (fun kv => Ok (str_drop 2 (fst kv),
                                          qmul_by_scalar (snd kv) t))).
    - rewrite mapM_ok. unfold bind. fold m.
      rewrite dict_of_items_nodup; [reflexivity |].
      rewrite Hmk. exact Hstrip.
    - intros kv _. now rewrite qmul_scalar_ok. }
  destruct (cls_call_same_keys icls m Hconcrete Hfields)
    as (r & Hcall & Hcls & Hrk & Hget).
  { intros f. now rewrite Hmk. }
  assert (Hmul : dif_mul d t = constructor_mapping icls m).
  { unfold dif_mul, integral_cls. rewrite Hint.
    cbv beta iota delta [bind]. now rewrite Hcomp. }
  assert (Hcomps : forall k v, In (k, v) (comps d) ->
            getattr r (str_drop 2 k) = Ok (qmul_by_scalar v t)).
  { intros k v Hin.
    assert (Hinm : In (str_drop 2 k, qmul_by_scalar v t) m).
    { unfold m. apply in_map_iff. exists (k, v). now split. }
    apply Hget.
    - apply dict_get_In; [now rewrite Hmk | exact Hinm].
    - unfold dict_keys. apply in_map_iff.
      exists (str_drop 2 k, qmul_by_scalar v t). now split. }
  exists r. split; [exact Hmul |]. split; [now rewrite Hmul |].
  split; [exact Hcls |]. split; [exact Hrk |]. split.
  - intros k v Hin. split; [now apply qmul_scalar_ok | now apply Hcomps].
  - intros s v Hin. apply (Hcomps _ _ Hin).
Qed.

Lemma dif_mul_integral_witness :
  vec_wf Examples.dif123 /\
  exists r,
    dif_mul Examples.dif123 (scalar 2 u_s) = Ok r /\
    vcls r = Builtin.Cartesian3DVector /\
    getattr r "y" = Ok (scalar 4 u_km).
Proof.
  assert (Hwf : vec_wf Examples.dif123) by solve_wf.
  split; [exact Hwf |].
  destruct (dif_mul_integral Examples.dif123 (scalar 2 u_s)
              Builtin.Cartesian3DVector Hwf eq_refl eq_refl eq_refl)
    as (r & _ & Hr & Hcls & _ & _ & Hs).
  - solve_nodup.
  - solve_nodup.
  - intros f. reflexivity.
  - exists r. split; [exact Hr |]. split; [exact Hcls |].
    apply (Hs "y" (scalar 2 u_km_s)). simpl. tauto.
Defined.

(** The docstring example: [RadialDifferential(1 m/s) * (2 s)] is
    [RadialVector(r = 2 m)]. *)
Example dif_mul_radial :
  dif_mul (mkVector Builtin.RadialDifferential [("d_r", scalar 1 u_m_s)])
          (scalar 2 u_s)
  = Ok (mkVector Builtin.RadialVector [("r", scalar 2 u_m)]).
Proof. reflexivity. Qed.

(* --------------------------------------------------------------------- *)
(** ** Extra positional arguments of [represent_as] *)

Section RepresentAsFacts.
Variable tr : Vector -> Class -> Vector -> Dict PyVal -> Result Vector.

(** An extra argument that is a vector object is truthy: the warning is
    issued and the result is that of the call without it. *)
Lemma dif_represent_as_vector_warns (d : Vector) (T : Class) (p : Vector)
  (extra : Vector) (kw : Dict PyVal) :
  dif_represent_as tr d T p [PyVec extra] kw
  = ([UserWarning "Extra arguments are ignored."], tr d T p kw).
Proof. reflexivity. Qed.

(** An extra argument that is a number is traced, and [any(args)] fails
    on it instead of warning. *)
Lemma dif_represent_as_number_raises (d : Vector) (T : Class) (p : Vector)
  (z : Z) (kw : Dict PyVal) :
  dif_represent_as tr d T p [PyInt z] kw = ([], Err TypeError).
Proof. reflexivity. Qed.

(** C6, the failing input: with the single extra argument [None] (or
    with extra arguments that are all falsy, such as [None] and the empty
    tuple) no warning is issued, although the tuple of extra arguments
    is not empty; the result is still that of the call without them. *)
Theorem dif_represent_as_falsy_extra (d : Vector) (T : Class) (p : Vector)
  (kw : Dict PyVal) :
  dif_represent_as tr d T p [PyNone] kw = ([], tr d T p kw) /\
  dif_represent_as tr d T p [PyNone; PyTuple []] kw = ([], tr d T p kw).
Proof. split; reflexivity. Qed.
End RepresentAsFacts.

(* --------------------------------------------------------------------- *)
(** ** N-dimensional vectors: flatten and reshape *)

Lemma prod_app (s t : Shape) : prod (s ++ t) = prod s * prod t.
Proof.
  induction s as [| a s IH]; simpl; [lia |]. rewrite IH. lia.
Qed.

Section NDFacts.
Variables (v : Vector) (q : Quantity) (batch : Shape) (n : nat).
Hypothesis Hwf : vec_wf v.
Hypothesis Hcomps : comps v = [("q", q)].
Hypothesis Hshape : shape (value q) = batch ++ [n].



End NDFacts.

Section NDDifferentialFacts.
Variables (d : Vector) (dq : Quantity) (batch : Shape) (n : nat).
Hypothesis Hwf : vec_wf d.
Hypothesis Hcomps : comps d = [("d_q", dq)].
Hypothesis Hshape : shape (value dq) = batch ++ [n].

Lemma ndd_replace_q (q' : Quantity) : replace d [("q", q')] = Err TypeError.
Proof.
  destruct Hwf as (Habs & _ & Hk). rewrite Hcomps in Hk.
  unfold replace. rewrite <- Hk. simpl.
  unfold getattr. rewrite Hcomps. simpl.
  unfold cls_call. rewrite Habs, <- Hk. reflexivity.
Qed.

(** On a differential, [flatten] passes the reshaped array to [replace]
    under the name [q], which the class does not declare. *)
Lemma ndd_flatten_fails : NDDifferential.flatten d = Err TypeError.
Proof.
  unfold NDDifferential.flatten, NDDifferential.size, NDDifferential.shape_,
    getattr.
  rewrite Hcomps. simpl. rewrite Hshape, last_dim_app. simpl.
  unfold batch_shape. rewrite removelast_last.
  unfold q_reshape, areshape. rewrite Hshape, prod_app. simpl.
  replace (prod batch * (n * 1) =? prod batch * (n * 1)) with true
    by (symmetry; apply Nat.eqb_refl).
  simpl. apply ndd_replace_q.
Qed.

(** On a differential, [reshape] reads the attribute [q], which the
    instance does not have. *)
Lemma ndd_reshape_fails (hape : Shape) :
  NDDifferential.reshape d hape = Err AttributeError.
Proof.
  unfold NDDifferential.reshape, getattr. rewrite Hcomps. reflexivity.
Qed.
End NDDifferentialFacts.

(** C8, the failing input: on an N-D differential whose stacked array
    [d_q] has shape (2, 3, 4), [flatten] raises TypeError and [reshape]
    raises AttributeError, where the N-D position with the same array
    is flattened to shape (6, 4) and reshaped to shape (3, 2, 4). *)
Theorem nd_differential_flatten_reshape_fail :
  NDDifferential.flatten Examples.ndd234 = Err TypeError /\
  NDDifferential.reshape Examples.ndd234 [3; 2] = Err AttributeError /\
  NDVector.flatten Examples.nd234 =
  Ok (mkVector Builtin.CartesianNDVector
        [("q", mkQ (mkArray [6; 4] (Examples.iota 24)) u_m)]) /\
  NDVector.reshape Examples.nd234 [3; 2] =
  Ok (mkVector Builtin.CartesianNDVector
        [("q", mkQ (mkArray [3; 2; 4] (Examples.iota 24)) u_m)]).
Proof. repeat split. Qed.

(* --------------------------------------------------------------------- *)
(** ** N-dimensional vectors: matrix transpose *)

Lemma In_mT_axes (n : nat) (z : Z) :
  In z (mT_axes n) ->
  (exists i, i < n - 2 /\ z = Z.of_nat i) \/
  z = (Z.of_nat n - 2)%Z \/ z = (Z.of_nat n - 3)%Z.
Proof.
  unfold mT_axes. intros H. apply in_app_or in H as [H | H].
  - left. apply in_map_iff in H as (i & Hz & Hi). apply in_seq in Hi.
    exists i. split; [lia | now symmetry].
  - right. simpl in H. destruct H as [H | [H | []]]; [left | right]; now symmetry.
Qed.

(** The axes tuple never mentions the last axis, so that it is not a
    permutation of the axes. *)
Lemma mT_axes_not_permutation (n : nat) :
  2 <= n -> is_permutation (mT_axes n) n = false.
Proof.
  intros Hn. unfold is_permutation. apply andb_false_iff. right.
  apply not_true_is_false. intros Hall. rewrite forallb_forall in Hall.
  assert (Hin : In (n - 1) (seq 0 n)) by (apply in_seq; lia).
  apply Hall in Hin. apply existsb_exists in Hin as (z & Hz & Heq).
  apply Z.eqb_eq in Heq. subst z.
  apply In_mT_axes in Hz as [(i & Hi & Heq) | [Heq | Heq]]; lia.
Qed.

Lemma q_transpose_mT_axes (q : Quantity) :
  2 <= ndim (value q) ->
  q_transpose q (mT_axes (ndim (value q))) = Err TypeError.
Proof.
  intros Hn. unfold q_transpose, lax_transpose.
  now rewrite mT_axes_not_permutation.
Qed.

(** [mT] of an N-D position never returns. *)
Lemma nd_mT_never_returns (self : Vector) :
  exists e, NDVector.mT self = Err e.
Proof.
  unfold NDVector.mT. destruct (getattr self "q") as [q | e]; simpl.
  - destruct (ndim (value q) <? 2) eqn:Hlt; [now exists ValueError |].
    apply Nat.ltb_ge in Hlt. rewrite (q_transpose_mT_axes q Hlt).
    now exists TypeError.
  - now exists e.
Qed.

(** [mT] of an N-D differential never returns. *)
Lemma ndd_mT_never_returns (self : Vector) :
  exists e, NDDifferential.mT self = Err e.
Proof.
  unfold NDDifferential.mT. destruct (getattr self "d_q") as [q | e]; simpl.
  - destruct (ndim (value q) <? 2) eqn:Hlt; [now exists ValueError |].
    apply Nat.ltb_ge in Hlt. rewrite (q_transpose_mT_axes q Hlt).
    now exists TypeError.
  - now exists e.
Qed.

(** C9, the failing input: an N-D position and an N-D differential whose
    stacked array has shape (2, 3, 4) have two non-feature axes, yet
    [mT] raises TypeError on both, because the axes tuple (0, 1, 0) is
    not a permutation; whereas swapping the last two non-feature axes is
    the transposition with axes (1, 0, 2), of shape (3, 2, 4).  With one
    non-feature axis (shape (2, 4)) the error is the TypeError of the
    transposition with axes (0, -1), not the ValueError of the guard. *)
Theorem nd_mT_fails_with_two_batch_axes :
  mT_axes 3 = [0; 1; 0]%Z /\
  NDVector.mT Examples.nd234 = Err TypeError /\
  NDDifferential.mT Examples.ndd234 = Err TypeError /\
  (exists a, lax_transpose (mkArray [2; 3; 4] (Examples.iota 24)) [1; 0; 2]%Z
             = Ok a /\ shape a = [3; 2; 4]) /\
  mT_axes 2 = [0; -1]%Z /\
  NDVector.mT
    (mkVector Builtin.CartesianNDVector
       [("q", mkQ (mkArray [2; 4] (Examples.iota 8)) u_m)]) = Err TypeError.
Proof.
  split; [reflexivity |]. split; [reflexivity |]. split; [reflexivity |].
  split; [| split; reflexivity].
  eexists. split; [vm_compute; reflexivity | reflexivity].
Qed.

(* --------------------------------------------------------------------- *)
(** ** Conversion of 2-D vectors to a Quantity *)

Lemma full_shaped_closed (w : Vector) (s : Shape) :
  vec_wf w ->
  vshape w = Ok s ->
  full_shaped w =
  Ok (mkVector (vcls w)
        (map (fun kv => (fst kv, q_broadcast_to (snd kv) s)) (comps w))).
Proof.
  intros Hwf Hs. unfold full_shaped. rewrite Hs. simpl.
  assert (Hk : dict_keys (map (fun kv => (fst kv, q_broadcast_to (snd kv) s))
                              (comps w)) = cls_fields (vcls w)).
  { destruct Hwf as (_ & _ & Hk). unfold dict_keys in *.
    rewrite map_map. exact Hk. }
  rewrite dict_of_items_nodup.
  - now apply replace_all_fields.
  - rewrite Hk. now destruct Hwf as (_ & Hnd & _).
Qed.

Lemma astack_same_shape (arrs : list Array) (s : Shape) :
  arrs <> [] ->
  Forall (fun a => shape a = s) arrs ->
  exists a, astack arrs = Ok a /\ shape a = s ++ [List.length arrs].
Proof.
  intros Hne Hall. destruct arrs as [| a0 rest]; [contradiction |].
  unfold astack.
  assert (Hs0 : shape a0 = s) by now inversion Hall.
  assert (Hrest : forallb (fun b => if list_eq_dec Nat.eq_dec (shape b) (shape a0)
                                    then true else false) rest = true).
  { apply forallb_forall. intros b Hb.
    rewrite Forall_forall in Hall.
    destruct (list_eq_dec Nat.eq_dec (shape b) (shape a0)) as [| Hneq];
      [reflexivity |].
    exfalso. apply Hneq. rewrite Hs0. apply Hall. now right. }
  rewrite Hrest. eexists. split; [reflexivity |]. simpl. now rewrite Hs0.
Qed.

(** Stacking quantities of one shape and one physical type. *)
Lemma qstack_same_shape (q0 : Quantity) (rest : list Quantity) (s : Shape) :
  Forall (fun q => shape (value q) = s) (q0 :: rest) ->
  Forall (fun q => physical_type (unit q) = physical_type (unit q0)) (q0 :: rest) ->
  exists a,
    qstack (q0 :: rest) = Ok (mkQ a (unit q0)) /\
    shape a = s ++ [S (List.length rest)].
Proof.
  intros Hshape Hdim. unfold qstack.
  rewrite (mapM_ext_in _ (fun q => Ok (value (q_convert q (unit q0))))).
  - rewrite mapM_ok. unfold bind at 1.
    destruct (astack_same_shape
                (map (fun q => value (q_convert q (unit q0))) (q0 :: rest)) s)
      as (a & Ha & Hsa).
    + discriminate.
    + apply Forall_map. eapply Forall_impl; [| exact Hshape].
      intros q Hq. exact Hq.
    + rewrite Ha. simpl. exists a. split; [reflexivity |].
      rewrite Hsa. simpl. now rewrite length_map.
  - intros q Hq. rewrite Forall_forall in Hdim. unfold q_to_units.
    rewrite (Hdim q Hq), dim_eqb_refl. reflexivity.
Qed.

(** A full-shaped instance with at least one component, all of one
    physical type, stacks to an array with one more axis. *)
Lemma stack_full_shaped (w : Vector) (s : Shape) (pt : Dim) :
  vec_wf w ->
  vshape w = Ok s ->
  comps w <> [] ->
  Forall (fun q => physical_type (unit q) = pt) (dataclass_values w) ->
  exists fs q,
    full_shaped w = Ok fs /\
    vcls fs = vcls w /\
    comps fs = map (fun kv => (fst kv, q_broadcast_to (snd kv) s)) (comps w) /\
    qstack (dataclass_values fs) = Ok q /\
    shape (value q) = s ++ [List.length (comps w)] /\
    physical_type (unit q) = pt.
Proof.
  intros Hwf Hs Hne Hpt.
  pose proof (full_shaped_closed w s Hwf Hs) as Hfull.
  unfold dataclass_values in Hpt.
  destruct (comps w) as [| [k0 q0] rest] eqn:Hc; [contradiction |].
  destruct (qstack_same_shape (q_broadcast_to q0 s)
              (map snd (map (fun kv => (fst kv, q_broadcast_to (snd kv) s)) rest)) s)
    as (a & Ha & Hsa).
  - constructor; [apply shape_broadcast_to |].
    rewrite map_map. apply Forall_map. apply Forall_forall.
    intros kv _. apply shape_broadcast_to.
  - simpl in Hpt. inversion Hpt as [| ? ? Hq0 Hrest]; subst.
    constructor; [reflexivity |].
    rewrite map_map. apply Forall_map. simpl.
    rewrite Forall_map in Hrest. eapply Forall_impl; [| exact Hrest].
    intros kv Hkv. simpl. now rewrite Hkv.
  - exists (mkVector (vcls w)
              (map (fun kv => (fst kv, q_broadcast_to (snd kv) s))
                   ((k0, q0) :: rest))),
           (mkQ a (unit (q_broadcast_to q0 s))).
    split; [exact Hfull |]. split; [reflexivity |].
    split; [reflexivity |]. split; [exact Ha |]. simpl. split.
    + rewrite Hsa. now rewrite !length_map.
    + now inversion Hpt.
Qed.

(** C10: when [represent_as] gives the Cartesian form [c] of a 2-D
    position [v], a [Cartesian2DVector] instance with length components
    and the shape of [v], the conversion of [v] is the stack along a new
    trailing axis of the components of [c] broadcast to the full shape,
    whose shape is the shape of [v] followed by 2, in a length unit; a
    [CartesianDifferential2D] instance [d] with speed components is
    converted to the stack of its own full-shaped components, whose
    shape is the shape of [d] followed by 2, in a speed unit. *)
Theorem vec_to_q_stacks (represent_as : Vector -> Class -> Result Vector)
  (v c d : Vector) (s sd : Shape)
  (Hrep : represent_as v Builtin.Cartesian2DVector = Ok c)
  (Hc : vcls c = Builtin.Cartesian2DVector)
  (Hcwf : vec_wf c)
  (Hclen : Forall (fun q => physical_type (unit q) = dim_len) (dataclass_values c))
  (Hvs : vshape v = Ok s)
  (Hcs : vshape c = Ok s)
  (Hd : vcls d = Builtin.CartesianDifferential2D)
  (Hdwf : vec_wf d)
  (Hdspeed : Forall (fun q => physical_type (unit q) = dim_speed)
                    (dataclass_values d))
  (Hds : vshape d = Ok sd) :
  (exists cart q,
     full_shaped c = Ok cart /\
     comps cart = map (fun kv => (fst kv, q_broadcast_to (snd kv) s)) (comps c) /\
     vec_to_q represent_as v = qstack (dataclass_values cart) /\
     vec_to_q represent_as v = Ok q /\
     shape (value q) = s ++ [2] /\
     physical_type (unit q) = dim_len) /\
  (exists fs q,
     full_shaped d = Ok fs /\
     comps fs = map (fun kv => (fst kv, q_broadcast_to (snd kv) sd)) (comps d) /\
     vec_diff_to_q d = qstack (dataclass_values fs) /\
     vec_diff_to_q d = Ok q /\
     shape (value q) = sd ++ [2] /\
     physical_type (unit q) = dim_speed).
Proof.
  assert (Hlen : forall w C, vec_wf w -> vcls w = C ->
                             List.length (cls_fields C) = 2 ->
                             List.length (comps w) = 2 /\ comps w <> []).
  { intros w C (_ & _ & Hk) HC Hl. rewrite <- HC, <- Hk in Hl.
    unfold dict_keys in Hl. rewrite length_map in Hl.
    split; [exact Hl |]. intros Hnil. now rewrite Hnil in Hl. }
  split.
  - destruct (Hlen c _ Hcwf Hc eq_refl) as [Hl Hne].
    destruct (stack_full_shaped c s dim_len Hcwf Hcs Hne Hclen)
      as (cart & q & Hfull & _ & Hcomps & Hstack & Hshape & Hunit).
    exists cart, q. unfold vec_to_q. rewrite Hrep. simpl. rewrite Hfull. simpl.
    rewrite Hl in Hshape. now repeat split.
  - destruct (Hlen d _ Hdwf Hd eq_refl) as [Hl Hne].
    destruct (stack_full_shaped d sd dim_speed Hdwf Hds Hne Hdspeed)
      as (fs & q & Hfull & _ & Hcomps & Hstack & Hshape & Hunit).
    exists fs, q. unfold vec_diff_to_q. rewrite Hfull. simpl.
    rewrite Hl in Hshape. now repeat split.
Qed.

Lemma vec_to_q_stacks_witness :
  exists q qd,
    vec_to_q (fun v _ => Ok v) Examples.cart_bc = Ok q /\
    shape (value q) = [2; 2] /\
    physical_type (unit q) = dim_len /\
    vec_diff_to_q Examples.dif_bc = Ok qd /\
    shape (value qd) = [2; 2] /\
    physical_type (unit qd) = dim_speed.
Proof.
  assert (Hcwf : vec_wf Examples.cart_bc) by solve_wf.
  assert (Hdwf : vec_wf Examples.dif_bc) by solve_wf.
  assert (Hclen : Forall (fun q => physical_type (unit q) = dim_len)
                         (dataclass_values Examples.cart_bc))
    by (repeat constructor).
  assert (Hdspeed : Forall (fun q => physical_type (unit q) = dim_speed)
                           (dataclass_values Examples.dif_bc))
    by (repeat constructor).
  destruct (vec_to_q_stacks (fun v _ => Ok v)
              Examples.cart_bc Examples.cart_bc Examples.dif_bc [2] [2]
              eq_refl eq_refl Hcwf Hclen eq_refl eq_refl
              eq_refl Hdwf Hdspeed eq_refl)
    as ((cart & q & _ & _ & _ & Hq & Hs & Hu)
        & (fs & qd & _ & _ & _ & Hqd & Hsd & Hud)).
  exists q, qd. repeat split; assumption.
Defined.

(** The values behind the example: [x = [1, 2] m, y = 0 km] stacks to
    [[1, 0], [2, 0]] m, and [d_x = [1, 2] km/s, d_y = 5 m/s] to
    [[1, 1/200], [2, 1/200]] km/s. *)
Example vec_to_q_values :
  vec_to_q (fun v _ => Ok v) Examples.cart_bc
  = Ok (mkQ (mkArray [2; 2] (nums [1; 0; 2; 0]%Q)) u_m) /\
  vec_diff_to_q Examples.dif_bc
  = Ok (mkQ (mkArray [2; 2] (nums [1; 1 # 200; 2; 1 # 200]%Q)) u_km_s).
Proof. split; reflexivity. Qed.

(* ===================================================================== *)
(** * Further properties of the code *)

(** ** Mappings and construction *)

(** [asdict] followed by the mapping constructor of the same class gives
    the instance back. *)
Theorem asdict_constructor_roundtrip (v : Vector) (Hwf : vec_wf v) :
  dict_keys (VectorBase.asdict v) = cls_fields (vcls v) /\
  constructor_mapping (vcls v) (VectorBase.asdict v) = Ok v.
Proof.
  destruct Hwf as (Habs & Hnd & Hk).
  unfold VectorBase.asdict, dataclass_items, constructor_mapping.
  rewrite dict_of_items_nodup by (now rewrite Hk).
  split; [exact Hk |].
  rewrite cls_call_exact by assumption. now destruct v.
Qed.

Lemma asdict_constructor_roundtrip_witness :
  vec_wf Examples.cart_22 /\
  constructor_mapping Builtin.Cartesian2DVector
    (VectorBase.asdict Examples.cart_22) = Ok Examples.cart_22.
Proof.
  assert (Hwf : vec_wf Examples.cart_22) by solve_wf.
  split; [exact Hwf |].
  exact (proj2 (asdict_constructor_roundtrip Examples.cart_22 Hwf)).
Defined.

(** ** Copy-construction and the store *)

(** A copy-construction that returns leaves every stored instance where
    it was, and the reference it returns is either the argument or the
    next free one and denotes an instance whose type is exactly the
    class asked for. *)
Theorem constructor_vector_store (C : Class) (r r' : Ref) (h h' : Heap)
  (Hok : constructor_vector C r h = Ok (r', h')) :
  (forall i o, nth_error h i = Some o -> nth_error h' i = Some o) /\
  (r' = r \/ r' = List.length h) /\
  exists v', nth_error h' r' = Some v' /\ type_is v' C = true.
Proof.
  unfold constructor_vector in Hok.
  destruct (nth_error h r) as [obj |] eqn:Hr; [| discriminate].
  destruct (negb (isinstance obj (cls_name C))); [discriminate |].
  destruct (type_is obj C) eqn:Hty.
  - inversion Hok; subst r' h'. split; [auto |]. split; [now left |].
    now exists obj.
  - destruct (cls_call C _) as [v |] eqn:Hcall; simpl in Hok; [| discriminate].
    inversion Hok; subst r' h'. split.
    + intros i o Hi. rewrite nth_error_app1; [exact Hi |].
      apply nth_error_Some. now rewrite Hi.
    + split; [now right |]. exists v. split.
      * rewrite nth_error_app2 by apply Nat.le_refl.
        now rewrite Nat.sub_diag.
      * apply cls_call_vcls in Hcall. unfold type_is. rewrite Hcall.
        apply String.eqb_refl.
Qed.

Lemma constructor_vector_store_witness :
  exists v',
    nth_error [Examples.my_cart;
               mkVector Builtin.Cartesian2DVector (comps Examples.my_cart)] 1
    = Some v' /\
    type_is v' Builtin.Cartesian2DVector = true.
Proof.
  exact (proj2 (proj2 (constructor_vector_store Builtin.Cartesian2DVector 0 1
                         [Examples.my_cart]
                         [Examples.my_cart;
                          mkVector Builtin.Cartesian2DVector
                            (comps Examples.my_cart)]
                         eq_refl))).
Defined.

(** ** Unit conversion *)

Lemma reference_unit_In (v : Vector) (q : Quantity) :
  In q (dataclass_values v) ->
  exists q0, first_of_dim (physical_type (unit q)) (dataclass_values v) = Some q0 /\
             reference_unit v q = unit q0 /\
             physical_type (unit q0) = physical_type (unit q).
Proof.
  intros Hin. destruct (first_of_dim_In q _ Hin) as (q0 & Hf & _ & Hdim).
  exists q0. unfold reference_unit. rewrite Hf. now repeat split.
Qed.

Lemma In_values (v : Vector) (k : string) (q : Quantity) :
  In (k, q) (comps v) -> In q (dataclass_values v).
Proof.
  intros Hin. unfold dataclass_values. change q with (snd (k, q)).
  now apply in_map.
Qed.

(** After the conversion to consistent units, two components of one
    physical type have one unit. *)
Theorem to_units_consistent_units_agree (v v' : Vector)
  (Hwf : vec_wf v)
  (Hconv : to_units_consistent v = Ok v') :
  forall k1 q1 k2 q2,
    In (k1, q1) (comps v') -> In (k2, q2) (comps v') ->
    physical_type (unit q1) = physical_type (unit q2) ->
    unit q1 = unit q2.
Proof.
  rewrite (to_units_consistent_closed v Hwf) in Hconv.
  inversion Hconv; subst v'. clear Hconv. simpl.
  intros k1 q1 k2 q2 H1 H2 Hpt.
  apply in_map_iff in H1 as ([k1' p1] & Heq1 & Hin1).
  apply in_map_iff in H2 as ([k2' p2] & Heq2 & Hin2).
  simpl in Heq1, Heq2. inversion Heq1; subst. inversion Heq2; subst.
  simpl in *.
  destruct (reference_unit_In v p1 (In_values _ _ _ Hin1)) as (a & Ha & Hra & Hda).
  destruct (reference_unit_In v p2 (In_values _ _ _ Hin2)) as (b & Hb & Hrb & Hdb).
  rewrite Hra, Hrb in *. rewrite Hda, Hdb in Hpt. rewrite Hpt in Ha.
  rewrite Ha in Hb. now inversion Hb.
Qed.

Lemma to_units_consistent_units_agree_witness :
  vec_wf Examples.cart_m_km /\
  to_units_consistent Examples.cart_m_km
  = Ok (mkVector Builtin.Cartesian2DVector
          [("x", scalar 1 u_m); ("y", scalar 2000 u_m)]) /\
  unit (scalar 1 u_m) = unit (scalar 2000 u_m).
Proof.
  assert (Hwf : vec_wf Examples.cart_m_km) by solve_wf.
  split; [exact Hwf |]. split; [reflexivity |].
  apply (to_units_consistent_units_agree Examples.cart_m_km _ Hwf eq_refl
           "x" (scalar 1 u_m) "y" (scalar 2000 u_m)).
  - simpl. tauto.
  - simpl. tauto.
  - reflexivity.
Defined.

Lemma q_convert_again (q : Quantity) (u : Unit) :
  q_convert (q_convert q u) u = q_convert q u.
Proof.
  unfold q_convert, amap. simpl. do 2 f_equal. rewrite map_map.
  apply map_ext. intros [a | | |]; try reflexivity.
  unfold nconv. f_equal.
  set (y := (a * (unit_scale (unit q) / unit_scale u))%Q).
  transitivity (Qred (Qred y)).
  - apply Qred_complete. rewrite <- (Qred_correct (Qred y * _)).
    apply convert_same_unit.
  - apply Qred_complete, Qred_correct.
Qed.

(** Converting to consistent units a second time changes nothing. *)
Theorem to_units_consistent_idempotent (v v' : Vector)
  (Hwf : vec_wf v)
  (Hconv : to_units_consistent v = Ok v') :
  to_units_consistent v' = Ok v'.
Proof.
  pose proof (to_units_consistent_units_agree v v' Hwf Hconv) as Hagree.
  rewrite (to_units_consistent_closed v Hwf) in Hconv.
  assert (Hwf' : vec_wf v').
  { inversion Hconv; subst v'. destruct Hwf as (Habs & Hnd & Hk).
    repeat split; simpl; try assumption.
    unfold dict_keys in *. now rewrite map_map. }
  rewrite (to_units_consistent_closed v' Hwf').
  assert (Hfix : map (fun kv => (fst kv, q_convert (snd kv) (reference_unit v' (snd kv))))
                     (comps v') = comps v').
  { transitivity (map (fun kv : string * Quantity => kv) (comps v'));
      [| apply map_id].
    apply map_ext_in.
    intros [k q'] Hin. simpl.
    destruct (reference_unit_In v' q' (In_values _ _ _ Hin)) as (q0 & Hf & Hr & Hd).
    assert (Hq0 : exists k0, In (k0, q0) (comps v')).
    { unfold first_of_dim in Hf. apply find_some in Hf as [Hin0 _].
      unfold dataclass_values in Hin0.
      apply in_map_iff in Hin0 as ([k0 q0'] & Heq & Hin0). simpl in Heq. subst.
      now exists k0. }
    destruct Hq0 as (k0 & Hin0).
    rewrite Hr, (Hagree k0 q0 k q' Hin0 Hin Hd).
    inversion Hconv as [Hv']. rewrite <- Hv' in Hin. simpl in Hin.
    apply in_map_iff in Hin as ([k1 p] & Heq & _). simpl in Heq.
    inversion Heq; subst. simpl. now rewrite q_convert_again. }
  rewrite Hfix. now destruct v'.
Qed.

Lemma to_units_consistent_idempotent_witness :
  to_units_consistent
    (mkVector Builtin.Cartesian2DVector
       [("x", scalar 1 u_m); ("y", scalar 2000 u_m)])
  = Ok (mkVector Builtin.Cartesian2DVector
          [("x", scalar 1 u_m); ("y", scalar 2000 u_m)]).
Proof.
  assert (Hwf : vec_wf Examples.cart_m_km) by solve_wf.
  exact (to_units_consistent_idempotent Examples.cart_m_km _ Hwf eq_refl).
Defined.

Lemma mapM_err {A B : Type} (f : A -> Result B) (l : list A) (e : Exn) :
  (forall a, In a l -> (exists b, f a = Ok b) \/ f a = Err e) ->
  (exists a, In a l /\ f a = Err e) ->
  mapM f l = Err e.
Proof.
  induction l as [| a l IH]; intros Hall (x & Hin & Hx); simpl; [contradiction |].
  destruct (Hall a (or_introl eq_refl)) as [(b & Hb) | Hb]; rewrite Hb; simpl;
    [| reflexivity].
  rewrite IH; [reflexivity | intros y Hy; apply Hall; now right |].
  destruct Hin as [-> | Hin]; [congruence | now exists x].
Qed.

(** [to_units] with a mapping whose units have the physical type they
    are registered under: when every component finds its physical type
    in the mapping, each component is converted to the unit found there
    and the class is kept; when some component does not, the call fails
    with KeyError. *)
Theorem to_units_mapping_lookup (v : Vector) (units : list (Dim * Unit))
  (Hwf : vec_wf v)
  (Hunits : forall pt u, units_get pt (units_of_mapping units) = Some u ->
                         physical_type u = pt) :
  ((forall q, In q (dataclass_values v) ->
      units_get (physical_type (unit q)) (units_of_mapping units) <> None) ->
   exists v',
     to_units_mapping v units = Ok v' /\
     vcls v' = vcls v /\
     forall i k q, nth_error (comps v) i = Some (k, q) ->
       exists u, units_get (physical_type (unit q)) (units_of_mapping units) = Some u /\
                 nth_error (comps v') i = Some (k, q_convert q u)) /\
  ((exists q, In q (dataclass_values v) /\
      units_get (physical_type (unit q)) (units_of_mapping units) = None) ->
   to_units_mapping v units = Err KeyError).
Proof.
  set (units_ := units_of_mapping units) in *.
  set (g := fun q => match units_get (physical_type (unit q)) units_ with
                     | Some u => q_convert q u
                     | None => q
                     end).
  split.
  - intros Hall. unfold to_units_mapping. fold units_.
    rewrite (dict_comp_ext_in _ (fun _ q => Ok (g q))).
    + rewrite (replace_comp_total v (fun _ q => g q) Hwf).
      eexists. split; [reflexivity |]. simpl. split; [reflexivity |].
      intros i k q Hnth.
      assert (Hq : In q (dataclass_values v)).
      { eapply In_values, nth_error_In; eassumption. }
      specialize (Hall q Hq).
      destruct (units_get (physical_type (unit q)) units_) as [u |] eqn:Hu;
        [| contradiction].
      exists u. split; [reflexivity |].
      rewrite nth_error_map, Hnth. simpl. unfold g. now rewrite Hu.
    + intros [k q] Hin. simpl. specialize (Hall q (In_values _ _ _ Hin)).
      unfold g.
      destruct (units_get (physical_type (unit q)) units_) as [u |] eqn:Hu;
        [| contradiction].
      unfold q_to_units. rewrite (Hunits _ _ Hu), dim_eqb_refl. reflexivity.
  - intros (q & Hq & Hnone). unfold to_units_mapping, dict_comp. fold units_.
    rewrite (mapM_err _ _ KeyError); [reflexivity | |].
    + intros [k p] _. simpl.
      destruct (units_get (physical_type (unit p)) units_) as [u |] eqn:Hu.
      * left. unfold q_to_units. rewrite (Hunits _ _ Hu), dim_eqb_refl.
        simpl. now eexists.
      * now right.
    + unfold dataclass_values in Hq. apply in_map_iff in Hq as ([k p] & Heq & Hin).
      simpl in Heq. subst p. exists (k, q). split; [exact Hin |].
      simpl. now rewrite Hnone.
Qed.

Lemma to_units_mapping_lookup_witness :
  to_units_mapping Examples.cart_m_km [(dim_time, u_s)] = Err KeyError /\
  exists v', to_units_mapping Examples.cart_m_km [(dim_len, u_km)] = Ok v' /\
             vcls v' = Builtin.Cartesian2DVector.
Proof.
  assert (Hwf : vec_wf Examples.cart_m_km) by solve_wf.
  split.
  - apply (to_units_mapping_lookup Examples.cart_m_km [(dim_time, u_s)] Hwf).
    + intros pt u. simpl. destruct (dim_eqb pt dim_time) eqn:H; [| discriminate].
      apply dim_eqb_eq in H. intros Hu. inversion Hu. now subst.
    + exists (scalar 1 u_m). split; [simpl; tauto | reflexivity].
  - destruct (to_units_mapping_lookup Examples.cart_m_km [(dim_len, u_km)] Hwf)
      as [Hok _].
    + intros pt u. simpl. destruct (dim_eqb pt dim_len) eqn:H; [| discriminate].
      apply dim_eqb_eq in H. intros Hu. inversion Hu. now subst.
    + destruct Hok as (v' & Hv' & Hcls & _).
      * intros q [<- | [<- | []]]; discriminate.
      * exists v'. now split.
Defined.

(** ** Full shape, reshape and flatten of the base class *)

Lemma broadcast_shapes_all_same (ss : list Shape) (s : Shape) :
  ss <> [] -> Forall (eq s) ss -> broadcast_shapes ss = Ok s.
Proof.
  induction ss as [| a ss IH]; intros Hne Hall; [contradiction |].
  inversion Hall as [| ? ? Ha Hrest]; subst a. simpl.
  destruct ss as [| b ss].
  - simpl. apply broadcast2_nil_r.
  - rewrite IH by (discriminate || assumption). simpl. apply broadcast2_same.
Qed.

Lemma vshape_all_same (w : Vector) (s : Shape) :
  comps w <> [] ->
  (forall k q, In (k, q) (comps w) -> shape (value q) = s) ->
  vshape w = Ok s.
Proof.
  intros Hne Hall. unfold vshape, shapes, dataclass_values.
  apply broadcast_shapes_all_same.
  - destruct (comps w); [contradiction | discriminate].
  - rewrite map_map. apply Forall_map, Forall_forall.
    intros [k q] Hin. simpl. symmetry. now apply (Hall k).
Qed.

Lemma q_broadcast_to_same (q : Quantity) (s : Shape) :
  shape (value q) = s -> q_broadcast_to q s = q.
Proof.
  intros <-. unfold q_broadcast_to. rewrite broadcast_to_same. now destruct q.
Qed.

Lemma full_shaped_wf (w : Vector) (s : Shape) :
  vec_wf w ->
  vec_wf (mkVector (vcls w)
            (map (fun kv => (fst kv, q_broadcast_to (snd kv) s)) (comps w))).
Proof.
  intros (Habs & Hnd & Hk). repeat split; simpl; try assumption.
  unfold dict_keys in *. now rewrite map_map.
Qed.

(** [full_shaped] gives every component the common shape and keeps the
    class, the names and the units; the shape of the instance is
    unchanged, and full-shaping again changes nothing. *)
Theorem full_shaped_spec (v : Vector) (s : Shape)
  (Hwf : vec_wf v)
  (Hshape : vshape v = Ok s) :
  exists fs,
    full_shaped v = Ok fs /\
    vcls fs = vcls v /\
    (forall k q, In (k, q) (comps fs) -> shape (value q) = s) /\
    (forall i k q, nth_error (comps v) i = Some (k, q) ->
       exists q', nth_error (comps fs) i = Some (k, q') /\ unit q' = unit q) /\
    vshape fs = Ok s /\
    full_shaped fs = Ok fs.
Proof.
  set (fs := mkVector (vcls v)
               (map (fun kv => (fst kv, q_broadcast_to (snd kv) s)) (comps v))).
  assert (Hall : forall k q, In (k, q) (comps fs) -> shape (value q) = s).
  { intros k q Hin. simpl in Hin. apply in_map_iff in Hin as ([k' p] & Heq & _).
    inversion Heq; subst. apply shape_broadcast_to. }
  assert (Hvs : vshape fs = Ok s).
  { assert (Hcases : comps v = [] \/ comps v <> [])
      by (destruct (comps v); [now left | right; discriminate]).
    destruct Hcases as [Hc | Hc].
    - unfold vshape, shapes, dataclass_values in *. simpl.
      rewrite Hc in *. exact Hshape.
    - apply vshape_all_same; [| exact Hall]. simpl.
      intros Hnil. apply map_eq_nil in Hnil. contradiction. }
  exists fs. split; [apply (full_shaped_closed v s Hwf Hshape) |].
  split; [reflexivity |]. split; [exact Hall |]. split; [| split; [exact Hvs |]].
  - intros i k q Hnth. exists (q_broadcast_to q s). simpl.
    rewrite nth_error_map, Hnth. now split.
  - rewrite (full_shaped_closed fs s (full_shaped_wf v s Hwf) Hvs).
    assert (Hfix : map (fun kv => (fst kv, q_broadcast_to (snd kv) s)) (comps fs)
                   = comps fs).
    { transitivity (map (fun kv : string * Quantity => kv) (comps fs));
        [| apply map_id].
      apply map_ext_in. intros [k q] Hin. simpl.
      now rewrite (q_broadcast_to_same q s (Hall k q Hin)). }
    rewrite Hfix. reflexivity.
Qed.

Lemma full_shaped_spec_witness :
  exists fs,
    full_shaped Examples.cart_22 = Ok fs /\
    (forall k q, In (k, q) (comps fs) -> shape (value q) = [2; 2]) /\
    full_shaped fs = Ok fs.
Proof.
  assert (Hwf : vec_wf Examples.cart_22) by solve_wf.
  destruct (full_shaped_spec Examples.cart_22 [2; 2] Hwf eq_refl)
    as (fs & H1 & _ & H2 & _ & _ & H3).
  exists fs. now repeat split.
Defined.

Lemma In_map_comps (w : Vector) (g : Quantity -> Quantity) (k : string)
  (q : Quantity) :
  In (k, q) (map (fun kv => (fst kv, g (snd kv))) (comps w)) ->
  exists p, In (k, p) (comps w) /\ q = g p.
Proof.
  intros Hin. apply in_map_iff in Hin as ([k' p] & Heq & Hin).
  inversion Heq; subst. now exists p.
Qed.

(** [reshape] on an instance with components: when the target has as
    many entries as the shape of the instance, every component and the
    instance itself get the target shape; otherwise the call fails with
    the TypeError of the array reshape. *)
Theorem reshape_shape_invariant (v : Vector) (s target : Shape)
  (Hwf : vec_wf v)
  (Hne : comps v <> [])
  (Hshape : vshape v = Ok s) :
  (prod target = prod s ->
   exists r,
     VectorBase.reshape v target = Ok r /\
     vcls r = vcls v /\
     (forall k q, In (k, q) (comps r) -> shape (value q) = target) /\
     vshape r = Ok target) /\
  (prod target <> prod s -> VectorBase.reshape v target = Err TypeError).
Proof.
  pose proof (full_shaped_closed v s Hwf Hshape) as Hfull.
  set (fcomps := map (fun kv => (fst kv, q_broadcast_to (snd kv) s)) (comps v)) in *.
  assert (Hfs : forall k q, In (k, q) fcomps -> shape (value q) = s).
  { intros k q Hin. unfold fcomps in Hin.
    apply (In_map_comps v (fun p => q_broadcast_to p s)) in Hin as (p & _ & ->).
    apply shape_broadcast_to. }
  assert (Hk : dict_keys fcomps = cls_fields (vcls v)).
  { destruct Hwf as (_ & _ & Hk). unfold fcomps, dict_keys in *.
    now rewrite map_map. }
  split.
  - intros Hprod.
    set (g := fun q => mkQ (mkArray target (data (value q))) (unit q)).
    assert (Hrk : dict_keys (map (fun kv => (fst kv, g (snd kv))) fcomps)
                  = cls_fields (vcls v)).
    { rewrite <- Hk. unfold dict_keys. rewrite map_map. reflexivity. }
    assert (Hcomp : dict_comp (fun _ q => q_reshape q target) fcomps
                    = Ok (map (fun kv => (fst kv, g (snd kv))) fcomps)).
    { rewrite (dict_comp_ext_in _ (fun _ q => Ok (g q))).
      - unfold dict_comp.
        rewrite (mapM_ext_in _ (fun kv => Ok (fst kv, g (snd kv)))) by reflexivity.
        rewrite mapM_ok. simpl. rewrite dict_of_items_nodup; [reflexivity |].
        rewrite Hrk. now destruct Hwf as (_ & Hnd & _).
      - intros [k q] Hin. simpl. unfold q_reshape, areshape.
        rewrite (Hfs k q Hin), <- Hprod, Nat.eqb_refl. reflexivity. }
    unfold VectorBase.reshape. rewrite Hfull. simpl.
    unfold dataclass_items. simpl. fold fcomps. rewrite Hcomp. simpl.
    rewrite (replace_all_fields v _ Hwf Hrk).
    eexists. split; [reflexivity |]. simpl. split; [reflexivity |].
    assert (Hall : forall k q,
              In (k, q) (map (fun kv => (fst kv, g (snd kv))) fcomps) ->
              shape (value q) = target).
    { intros k q Hin. apply in_map_iff in Hin as ([k' p] & Heq & _).
      inversion Heq; subst. reflexivity. }
    split; [exact Hall |].
    apply vshape_all_same; [| exact Hall]. simpl. unfold fcomps.
    destruct (comps v); [contradiction | discriminate].
  - intros Hprod. unfold VectorBase.reshape. rewrite Hfull. simpl.
    unfold dataclass_items, dict_comp. simpl. fold fcomps.
    rewrite (mapM_err _ _ TypeError); [reflexivity | |].
    + intros [k q] Hin. right. simpl. unfold q_reshape, areshape.
      rewrite (Hfs k q Hin).
      destruct (Nat.eqb_spec (prod s) (prod target)) as [Heq | _];
        [now symmetry in Heq | reflexivity].
    + unfold fcomps. destruct (comps v) as [| [k q] cs]; [contradiction |].
      exists (k, q_broadcast_to q s). split; [now left |]. simpl.
      unfold q_reshape, areshape. simpl. rewrite shape_broadcast_to.
      destruct (Nat.eqb_spec (prod s) (prod target)) as [Heq | _];
        [now symmetry in Heq | reflexivity].
Qed.

Lemma reshape_shape_invariant_witness :
  (exists r, VectorBase.reshape Examples.cart_22 [4] = Ok r /\
             vshape r = Ok [4]) /\
  VectorBase.reshape Examples.cart_22 [3] = Err TypeError.
Proof.
  assert (Hwf : vec_wf Examples.cart_22) by solve_wf.
  assert (Hne : comps Examples.cart_22 <> []) by discriminate.
  destruct (reshape_shape_invariant Examples.cart_22 [2; 2] [4] Hwf Hne eq_refl)
    as [Hok _].
  destruct (reshape_shape_invariant Examples.cart_22 [2; 2] [3] Hwf Hne eq_refl)
    as [_ Herr].
  split.
  - destruct (Hok eq_refl) as (r & Hr & _ & _ & Hs). exists r. now split.
  - apply Herr. discriminate.
Defined.

Lemma map_comps_wf (w : Vector) (g : Quantity -> Quantity) :
  vec_wf w ->
  vec_wf (mkVector (vcls w) (map (fun kv => (fst kv, g (snd kv))) (comps w))).
Proof.
  intros (Habs & Hnd & Hk). repeat split; simpl; try assumption.
  unfold dict_keys in *. now rewrite map_map.
Qed.





(** ** Matrix transpose of the base class *)

Lemma map_nth_seq_prefix {A : Type} (l t : list A) (d : A) :
  map (fun i => nth i (l ++ t) d) (seq 0 (List.length l)) = l.
Proof.
  induction l as [| a l IH]; simpl; [reflexivity |].
  f_equal. rewrite <- seq_shift, map_map. exact IH.
Qed.

Lemma swap_last_axes_permutation (n : nat) :
  2 <= n -> is_permutation (swap_last_axes n) n = true.
Proof.
  intros Hn. unfold is_permutation, swap_last_axes.
  apply andb_true_iff. split.
  - apply Nat.eqb_eq. rewrite length_app, length_map, length_seq. simpl. lia.
  - apply forallb_forall. intros i Hi. apply in_seq in Hi.
    apply existsb_exists. exists (Z.of_nat i). split; [| apply Z.eqb_refl].
    apply in_or_app.
    destruct (Nat.lt_ge_cases i (n - 2)) as [Hlt | Hge].
    + left. apply in_map, in_seq. lia.
    + right. simpl.
      destruct (Nat.eq_dec i (n - 1)) as [-> | Hne]; [now left |].
      right. left. f_equal. lia.
Qed.

Lemma q_mT_ok (q : Quantity) (batch : Shape) (x y : nat) :
  shape (value q) = batch ++ [x; y] ->
  exists q', q_mT q = Ok q' /\
             shape (value q') = batch ++ [y; x] /\
             unit q' = unit q.
Proof.
  intros Hs.
  assert (Hn : ndim (value q) = List.length batch + 2).
  { unfold ndim. rewrite Hs, length_app. reflexivity. }
  unfold q_mT. destruct (Nat.ltb_spec (ndim (value q)) 2) as [Hlt | Hge]; [lia |].
  unfold q_transpose, lax_transpose.
  rewrite (swap_last_axes_permutation _ Hge). simpl.
  eexists. split; [reflexivity |]. simpl. split; [| reflexivity].
  unfold swap_last_axes. rewrite Hn, Hs.
  replace (List.length batch + 2 - 2) with (List.length batch) by lia.
  replace (List.length batch + 2 - 1) with (S (List.length batch)) by lia.
  rewrite map_app, map_map. cbn [map]. rewrite !Nat2Z.id.
  rewrite (map_ext _ (fun i => nth i (batch ++ [x; y]) 0))
    by (intros i; now rewrite Nat2Z.id).
  rewrite map_nth_seq_prefix. f_equal.
  rewrite !app_nth2 by lia.
  replace (S (List.length batch) - List.length batch) with 1 by lia.
  now rewrite Nat.sub_diag.
Qed.

Lemma shape_split_last_two (s : Shape) :
  2 <= List.length s -> exists batch x y, s = batch ++ [x; y].
Proof.
  intros Hlen.
  destruct (exists_last (l := s)) as (s1 & y & ->).
  { intros ->. simpl in Hlen. lia. }
  rewrite length_app in Hlen. simpl in Hlen.
  destruct (exists_last (l := s1)) as (batch & x & ->).
  { intros ->. simpl in Hlen. lia. }
  exists batch, x, y. now rewrite <- app_assoc.
Qed.

Lemma nth_map_seq {A : Type} (f : nat -> A) (n j : nat) (d : A) :
  j < n -> nth j (map f (seq 0 n)) d = f j.
Proof.
  intros Hj. rewrite (nth_indep _ d (f 0)) by (now rewrite length_map, length_seq).
  rewrite map_nth. now rewrite seq_nth.
Qed.

(** The matrix transpose of a matrix: entry [(b, a)] of the result is
    entry [(a, b)] of the operand. *)
Lemma q_mT_matrix (q : Quantity) (x y : nat) :
  shape (value q) = [x; y] ->
  exists q',
    q_mT q = Ok q' /\
    shape (value q') = [y; x] /\
    unit q' = unit q /\
    forall a b, a < x -> b < y ->
      nth (b * x + a) (data (value q')) (Fin 0)
      = nth (a * y + b) (data (value q)) (Fin 0).
Proof.
  intros Hs. unfold q_mT, q_transpose, lax_transpose, ndim. rewrite Hs.
  change (List.length [x; y]) with 2.
  change (2 <? 2) with false. cbv iota.
  change (is_permutation (swap_last_axes 2) 2) with true. cbv iota.
  cbn [bind]. eexists. split; [reflexivity |]. cbn [value shape data unit].
  split; [reflexivity |]. split; [reflexivity |].
  intros a b Ha Hb.
  change (map (fun p => nth (Z.to_nat p) [x; y] 0) (swap_last_axes 2)) with [y; x].
  rewrite nth_map_seq.
  2:{ simpl. nia. }
  f_equal. change (seq 0 2) with [0; 1]. cbn [map].
  change (index_of (Z.of_nat 0) (swap_last_axes 2)) with 1.
  change (index_of (Z.of_nat 1) (swap_last_axes 2)) with 0.
  cbn [unravel prod fold_right nth ravel].
  rewrite !Nat.mul_1_r, Nat.div_1_r, Nat.add_0_r.
  assert (Hx : x <> 0) by lia.
  rewrite Nat.div_add_l by exact Hx.
  rewrite (Nat.div_small a x Ha), Nat.add_0_r.
  rewrite (Nat.add_comm (b * x) a), Nat.Div0.mod_add.
  rewrite (Nat.mod_small a x Ha). reflexivity.
Qed.

(** [mT] works component by component and does not broadcast first: it
    fails with ValueError as soon as some component has fewer than two
    axes, whatever the shape of the instance; when every component has
    two axes or more, it returns an instance of the same class whose
    [i]-th component is the matrix transpose [q.mT] of the [i]-th
    component [q], in the unit of [q] and with the last two axes of its
    shape swapped; for a component that is a matrix, entry [(b, a)] of
    the result is entry [(a, b)] of the component. *)
Theorem mT_per_component (v : Vector) (Hwf : vec_wf v) :
  (Exists (fun q => ndim (value q) < 2) (dataclass_values v) ->
   VectorBase.mT v = Err ValueError) /\
  (Forall (fun q => 2 <= ndim (value q)) (dataclass_values v) ->
   exists r,
     VectorBase.mT v = Ok r /\
     vcls r = vcls v /\
     forall i k q,
       nth_error (comps v) i = Some (k, q) ->
       exists q',
         q_mT q = Ok q' /\
         nth_error (comps r) i = Some (k, q') /\
         unit q' = unit q /\
         (forall batch x y, shape (value q) = batch ++ [x; y] ->
                            shape (value q') = batch ++ [y; x]) /\
         (forall x y, shape (value q) = [x; y] ->
            forall a b, a < x -> b < y ->
              nth (b * x + a) (data (value q')) (Fin 0)
              = nth (a * y + b) (data (value q)) (Fin 0))).
Proof.
  split.
  - intros Hex. unfold VectorBase.mT, dict_comp, dataclass_items.
    rewrite (mapM_err _ _ ValueError); [reflexivity | |].
    + intros [k q] _. simpl. unfold q_mT.
      destruct (Nat.ltb_spec (ndim (value q)) 2) as [Hlt | Hge]; [now right |].
      left. destruct (shape_split_last_two (shape (value q)) Hge)
        as (batch & x & y & Hs).
      destruct (q_mT_ok q batch x y Hs) as (q' & Hq' & _).
      unfold q_mT in Hq'.
      destruct (Nat.ltb_spec (ndim (value q)) 2); [lia |].
      rewrite Hq'. simpl. now eexists.
    + apply Exists_exists in Hex as (q & Hin & Hlt).
      unfold dataclass_values in Hin.
      apply in_map_iff in Hin as ([k p] & Heq & Hin). simpl in Heq. subst p.
      exists (k, q). split; [exact Hin |]. simpl. unfold q_mT.
      apply Nat.ltb_lt in Hlt. now rewrite Hlt.
  - intros Hall.
    set (g := fun q => match q_mT q with Ok q' => q' | Err _ => q end).
    assert (Hg : forall k q, In (k, q) (comps v) -> q_mT q = Ok (g q)).
    { intros k q Hin. rewrite Forall_forall in Hall.
      specialize (Hall q (In_values v k q Hin)).
      destruct (shape_split_last_two (shape (value q)) Hall)
        as (batch & x & y & Hs).
      destruct (q_mT_ok q batch x y Hs) as (q' & Hq' & _).
      unfold g. now rewrite Hq'. }
    unfold VectorBase.mT.
    rewrite (dict_comp_ext_in _ (fun _ q => Ok (g q)))
      by (intros [k q] Hin; exact (Hg k q Hin)).
    rewrite (replace_comp_total v (fun _ q => g q) Hwf).
    eexists. split; [reflexivity |]. simpl. split; [reflexivity |].
    intros i k q Hnth.
    pose proof (Hg k q (nth_error_In _ _ Hnth)) as Hq.
    exists (g q). split; [exact Hq |]. split.
    { rewrite nth_error_map, Hnth. reflexivity. }
    split.
    { rewrite Forall_forall in Hall.
      specialize (Hall q (In_values v k q (nth_error_In _ _ Hnth))).
      destruct (shape_split_last_two (shape (value q)) Hall)
        as (batch & x & y & Hs).
      destruct (q_mT_ok q batch x y Hs) as (q' & Hq' & _ & Hu).
      rewrite Hq in Hq'. inversion Hq'; subst q'. exact Hu. }
    split.
    + intros batch x y Hs.
      destruct (q_mT_ok q batch x y Hs) as (q' & Hq' & Hsq & _).
      rewrite Hq in Hq'. inversion Hq'; subst q'. exact Hsq.
    + intros x y Hs.
      destruct (q_mT_matrix q x y Hs) as (q' & Hq' & _ & _ & Hentry).
      rewrite Hq in Hq'. inversion Hq'; subst q'. exact Hentry.
Qed.

(** The instance of the docstrings, of shape (2, 2) with the component
    [y] of shape (): [mT] fails on it, and works on its full-shaped
    copy. *)
Lemma mT_per_component_witness :
  VectorBase.mT Examples.cart_22 = Err ValueError /\
  exists fs r,
    full_shaped Examples.cart_22 = Ok fs /\
    VectorBase.mT fs = Ok r /\
    vcls r = Builtin.Cartesian2DVector /\
    nth_error (comps r) 0 =
    Some ("x", mkQ (mkArray [2; 2] (nums [1; 3; 2; 4]%Q)) u_m).
Proof.
  assert (Hwf : vec_wf Examples.cart_22) by solve_wf.
  split.
  - apply (proj1 (mT_per_component Examples.cart_22 Hwf)).
    apply Exists_cons_tl, Exists_cons_hd. unfold ndim. simpl. lia.
  - eexists.
    assert (Hfull : full_shaped Examples.cart_22
                    = Ok (mkVector Builtin.Cartesian2DVector
                            [("x", mkQ (mkArray [2; 2] (nums [1; 2; 3; 4]%Q)) u_m);
                             ("y", mkQ (mkArray [2; 2] (nums [0; 0; 0; 0]%Q)) u_m)]))
      by reflexivity.
    assert (Hwf' : vec_wf (mkVector Builtin.Cartesian2DVector
                            [("x", mkQ (mkArray [2; 2] (nums [1; 2; 3; 4]%Q)) u_m);
                             ("y", mkQ (mkArray [2; 2] (nums [0; 0; 0; 0]%Q)) u_m)]))
      by solve_wf.
    destruct (proj2 (mT_per_component _ Hwf')) as (r & Hr & Hcls & Hcomp).
    + repeat constructor; unfold ndim; simpl; lia.
    + exists r. split; [exact Hfull |]. split; [exact Hr |].
      split; [exact Hcls |].
      destruct (Hcomp 0 "x" _ eq_refl) as (q' & Hq' & Hn & _).
      rewrite Hn. cbv in Hq'. inversion Hq'. reflexivity.
Defined.

(** ** N-dimensional vectors: transpose, reshape and flatten *)

Lemma T_axes_not_permutation (n : nat) : is_permutation (T_axes n) n = false.
Proof.
  destruct n as [| [| [| [| n]]]]; reflexivity.
Qed.

(** [T] of an N-D position or of an N-D differential never returns: the
    axes list ends in [-1], which the transposition rejects with
    TypeError, whatever the number of axes of the stacked array. *)
Theorem nd_T_never_returns (self : Vector) :
  (forall q, getattr self "q" = Ok q -> NDVector.T self = Err TypeError) /\
  (forall dq, getattr self "d_q" = Ok dq ->
              NDDifferential.T self = Err TypeError) /\
  (forall r, NDVector.T self <> Ok r) /\
  (forall r, NDDifferential.T self <> Ok r).
Proof.
  assert (Htr : forall q, q_transpose q (T_axes (ndim (value q))) = Err TypeError).
  { intros q. unfold q_transpose, lax_transpose.
    now rewrite T_axes_not_permutation. }
  unfold NDVector.T, NDDifferential.T. repeat split.
  - intros q Hq. rewrite Hq. simpl. now rewrite Htr.
  - intros dq Hq. rewrite Hq. simpl. now rewrite Htr.
  - intros r. destruct (getattr self "q") as [q |]; simpl; [| discriminate].
    rewrite Htr. discriminate.
  - intros r. destruct (getattr self "d_q") as [q |]; simpl; [| discriminate].
    rewrite Htr. discriminate.
Qed.



(** ** Negation and addition of differentials *)

Lemma nadd_neg_conv (x : Num) (u : Unit) :
  nadd x (nconv (unit_scale u / unit_scale u) (nneg x)) = self_difference x.
Proof.
  destruct x as [a | | |]; try reflexivity.
  unfold nadd, nconv, nneg, self_difference. f_equal.
  change 0%Q with (Qred 0). apply Qred_complete.
  rewrite convert_same_unit, Qred_correct. ring.
Qed.

Lemma qadd_neg (v : Quantity) : qadd v (qneg v) = Ok (q_self_difference v).
Proof.
  unfold qadd, q_to_units. simpl. rewrite dim_eqb_refl. simpl.
  rewrite abinop_same_shape by reflexivity. simpl.
  unfold q_self_difference, amap. do 3 f_equal.
  rewrite map_map, zip_with_map_r. apply map_ext. intros x.
  apply nadd_neg_conv.
Qed.

(** Negation returns an instance of the same class with every component
    negated in its own unit (an infinity changing its sign, NaN staying
    NaN); adding it to the differential gives, in every component, zero
    at the finite entries and NaN at the infinite and NaN entries, hence
    the zero vector when all entries are finite. *)
Theorem dif_add_neg_zero (d : Vector)
  (Hwf : vec_wf d)
  (Hcart : isinstance d (cls_cartesian (vcls d)) = true) :
  exists nd,
    dif_neg d = Ok nd /\
    vcls nd = vcls d /\
    (forall i k q, nth_error (comps d) i = Some (k, q) ->
       nth_error (comps nd) i = Some (k, qneg q)) /\
    mixin_add d (PyVec nd) =
    Ok (mkVector (vcls d)
          (map (fun kv => (fst kv, q_self_difference (snd kv))) (comps d))) /\
    ((forall k q, In (k, q) (comps d) -> q_finite q) ->
     mixin_add d (PyVec nd) =
     Ok (mkVector (vcls d)
           (map (fun kv => (fst kv, qzeros_like (snd kv))) (comps d)))).
Proof.
  set (nd := mkVector (vcls d) (map (fun kv => (fst kv, qneg (snd kv))) (comps d))).
  assert (Hwfn : vec_wf nd) by exact (map_comps_wf d qneg Hwf).
  assert (Hadd : mixin_add d (PyVec nd) =
                 Ok (mkVector (vcls d)
                       (map (fun kv => (fst kv, q_self_difference (snd kv)))
                            (comps d)))).
  { unfold mixin_add. change (vcls d) with (vcls nd) at 1.
    unfold isinstance in *. simpl. rewrite Hcart. simpl.
    rewrite (dict_comp_ext_in _ (fun _ q => Ok (q_self_difference q))).
    - exact (replace_comp_total d (fun _ q => q_self_difference q) Hwf).
    - intros [k q] Hin. simpl.
      assert (Hinn : In (k, qneg q) (comps nd)).
      { simpl. apply in_map_iff. exists (k, q). now split. }
      rewrite (getattr_item nd k (qneg q) Hwfn Hinn). simpl.
      apply qadd_neg. }
  exists nd. split; [exact (replace_comp_total d (fun _ q => qneg q) Hwf) |].
  split; [reflexivity |]. split; [| split; [exact Hadd |]].
  - intros i k q Hnth. simpl. now rewrite nth_error_map, Hnth.
  - intros Hfin. rewrite Hadd. do 2 f_equal. apply map_ext_in.
    intros [k q] Hin. simpl. f_equal.
    apply q_self_difference_finite. now apply (Hfin k).
Qed.

Lemma dif_add_neg_zero_witness :
  (exists nd,
     dif_neg Examples.dif123 = Ok nd /\
     mixin_add Examples.dif123 (PyVec nd) =
     Ok (mkVector Builtin.CartesianDifferential3D
           [("d_x", scalar 0 u_km_s); ("d_y", scalar 0 u_km_s);
            ("d_z", scalar 0 u_km_s)])) /\
  (exists nd,
     dif_neg Examples.dif_inf = Ok nd /\
     mixin_add Examples.dif_inf (PyVec nd) =
     Ok (mkVector Builtin.CartesianDifferential3D
           [("d_x", mkQ (mkArray [] [NaN]) u_km_s); ("d_y", scalar 0 u_km_s);
            ("d_z", scalar 0 u_km_s)])).
Proof.
  assert (Hwf : vec_wf Examples.dif123) by solve_wf.
  assert (Hwfi : vec_wf Examples.dif_inf) by solve_wf.
  split.
  - destruct (dif_add_neg_zero Examples.dif123 Hwf eq_refl)
      as (nd & Hneg & _ & _ & _ & Hzero).
    exists nd. split; [exact Hneg |]. apply Hzero.
    intros k q [H | [H | [H | []]]]; inversion H; subst; repeat constructor.
  - destruct (dif_add_neg_zero Examples.dif_inf Hwfi eq_refl)
      as (nd & Hneg & _ & _ & Hadd & _).
    exists nd. split; [exact Hneg | exact Hadd].
Defined.

(** ** Stacking the components and constructing from the stack *)

Lemma chunks_flat_map {A : Type} (g : A -> list Num) (n : nat) (l : list A) :
  (forall x, In x l -> List.length (g x) = n) ->
  chunks n (List.length l) (flat_map g l) = map g l.
Proof.
  induction l as [| a l IH]; intros Hlen; simpl; [reflexivity |].
  assert (Ha : List.length (g a) = n) by (apply Hlen; now left).
  assert (Hf : firstn n (g a ++ flat_map g l) = g a).
  { rewrite <- Ha. rewrite firstn_app, firstn_all, Nat.sub_diag. simpl.
    apply app_nil_r. }
  assert (Hsk : skipn n (g a ++ flat_map g l) = flat_map g l).
  { rewrite <- Ha. rewrite skipn_app, skipn_all, Nat.sub_diag. reflexivity. }
  rewrite Hf, Hsk. f_equal. apply IH. intros x Hx. apply Hlen. now right.
Qed.

Lemma map_nth_seq_all {A : Type} (l : list A) (d : A) :
  map (fun j => nth j l d) (seq 0 (List.length l)) = l.
Proof.
  pose proof (map_nth_seq_prefix l [] d) as H.
  now rewrite app_nil_r in H.
Qed.

Lemma nth_map_nth_error {A B : Type} (f : A -> B) (l : list A) (i : nat)
  (p : A) (d : B) :
  nth_error l i = Some p -> nth i (map f l) d = f p.
Proof.
  revert i. induction l as [| a l IH]; intros [| i] H; simpl in *;
    try discriminate.
  - now inversion H.
  - now apply IH.
Qed.

(** Indexing the trailing axis of a stack gives back the stacked array. *)
Lemma index_last_astack (arrs : list Array) (s : Shape) (i : nat) (b : Array) :
  Forall (fun a => shape a = s /\ array_wf a) arrs ->
  nth_error arrs i = Some b ->
  exists a, astack arrs = Ok a /\
            shape a = s ++ [List.length arrs] /\
            index_last a i = Ok b.
Proof.
  intros Hall Hi.
  assert (Hne : arrs <> []) by (intros ->; now destruct i).
  assert (Hshapes : Forall (fun a => shape a = s) arrs).
  { eapply Forall_impl; [| exact Hall]. now intros a [H _]. }
  destruct arrs as [| a0 rest]; [contradiction |].
  assert (Hs0 : shape a0 = s) by now inversion Hshapes.
  set (arrs := a0 :: rest) in *.
  set (g := fun j => map (fun c => nth j (data c) (Fin 0)) arrs).
  assert (Hstack : astack arrs =
                   Ok (mkArray (s ++ [List.length arrs])
                         (flat_map g (seq 0 (prod s))))).
  { destruct (astack_same_shape arrs s Hne Hshapes) as (a & Ha & _).
    unfold astack, arrs in *.
    destruct (forallb _ rest); [| discriminate].
    now rewrite Hs0. }
  eexists. split; [exact Hstack |]. split; [reflexivity |].
  unfold index_last. cbn [shape]. rewrite last_dim_app. cbn [bind].
  assert (Hlt : i < List.length arrs).
  { apply nth_error_Some. now rewrite Hi. }
  apply Nat.ltb_lt in Hlt. rewrite Hlt. f_equal.
  unfold take_last_axis. cbn [shape data]. rewrite last_last.
  unfold batch_shape. rewrite removelast_last.
  assert (Hrows : chunks (List.length arrs) (prod s) (flat_map g (seq 0 (prod s)))
                  = map g (seq 0 (prod s))).
  { rewrite <- (chunks_flat_map g (List.length arrs) (seq 0 (prod s)))
      by (intros x _; unfold g; now rewrite length_map).
    now rewrite length_seq. }
  rewrite Hrows, map_map.
  rewrite Forall_forall in Hall.
  destruct (Hall b (nth_error_In _ _ Hi)) as [Hsb Hwfb].
  rewrite (map_ext _ (fun j => nth j (data b) (Fin 0))).
  - unfold array_wf in Hwfb. rewrite Hsb in Hwfb. rewrite <- Hwfb.
    rewrite map_nth_seq_all. rewrite <- Hsb. now destruct b.
  - intros j. unfold g.
    exact (nth_map_nth_error (fun c => nth j (data c) (Fin 0)) arrs i b (Fin 0) Hi).
Qed.

Lemma combine_keys_values (cs : Dict Quantity) (f : Quantity -> Quantity) :
  combine (dict_keys cs) (map f (map snd cs))
  = map (fun kv => (fst kv, f (snd kv))) cs.
Proof.
  induction cs as [| [k q] cs IH]; simpl; [reflexivity |]. now rewrite IH.
Qed.

(** An instance with components of one shape and one physical type is
    its own full-shaped form; stacking its components on a new trailing
    axis, as the conversion to Quantity does, and constructing the class
    from the stack gives the instance back, with every component in the
    unit of the first one. *)
Theorem stack_then_construct (v : Vector) (s : Shape) (k0 : string)
  (q0 : Quantity) (rest : Dict Quantity)
  (Hwf : vec_wf v)
  (Hcomps : comps v = (k0, q0) :: rest)
  (Hshape : forall k q, In (k, q) (comps v) ->
                        shape (value q) = s /\ array_wf (value q))
  (Hdim : forall k q, In (k, q) (comps v) ->
                      physical_type (unit q) = physical_type (unit q0)) :
  exists stacked,
    full_shaped v = Ok v /\
    vec_diff_to_q v = Ok stacked /\
    shape (value stacked) = s ++ [List.length (comps v)] /\
    unit stacked = unit q0 /\
    constructor_quantity (vcls v) stacked =
    Ok (mkVector (vcls v)
          (map (fun kv => (fst kv, q_convert (snd kv) (unit q0))) (comps v))).
Proof.
  assert (Hne : comps v <> []) by (rewrite Hcomps; discriminate).
  assert (Hvs : vshape v = Ok s).
  { apply vshape_all_same; [exact Hne |]. intros k q Hin. now apply (Hshape k). }
  assert (Hfull : full_shaped v = Ok v).
  { rewrite (full_shaped_closed v s Hwf Hvs).
    assert (Hfix : map (fun kv => (fst kv, q_broadcast_to (snd kv) s)) (comps v)
                   = comps v).
    { transitivity (map (fun kv : string * Quantity => kv) (comps v));
        [| apply map_id].
      apply map_ext_in. intros [k q] Hin. simpl.
      now rewrite (q_broadcast_to_same q s (proj1 (Hshape k q Hin))). }
    rewrite Hfix. now destruct v. }
  set (conv := fun p => q_convert p (unit q0)).
  set (arrs := map (fun p => value (conv p)) (dataclass_values v)).
  assert (Hvals : dataclass_values v = q0 :: map snd rest).
  { unfold dataclass_values. now rewrite Hcomps. }
  assert (Hmap : mapM (fun q => q' <- q_to_units q (unit q0) ;; Ok (value q'))
                      (dataclass_values v) = Ok arrs).
  { rewrite (mapM_ext_in _ (fun q => Ok (value (conv q)))); [apply mapM_ok |].
    intros q Hq. unfold dataclass_values in Hq.
    apply in_map_iff in Hq as ([k p] & Heq & Hin). simpl in Heq. subst p.
    unfold q_to_units. now rewrite (Hdim k q Hin), dim_eqb_refl. }
  assert (Harrs : Forall (fun a => shape a = s /\ array_wf a) arrs).
  { unfold arrs. apply Forall_map, Forall_forall. intros q Hq.
    unfold dataclass_values in Hq.
    apply in_map_iff in Hq as ([k p] & Heq & Hin). simpl in Heq. subst p.
    destruct (Hshape k q Hin) as [Hs Hw]. split; [exact Hs |].
    unfold array_wf in *. simpl. now rewrite length_map. }
  assert (Hlen : List.length arrs = List.length (comps v)).
  { unfold arrs, dataclass_values. now rewrite !length_map. }
  assert (Hfirst : nth_error arrs 0 = Some (value (conv q0))).
  { unfold arrs. now rewrite Hvals. }
  destruct (index_last_astack arrs s 0 _ Harrs Hfirst) as (a & Ha & Hsa & _).
  assert (Hstack : qstack (dataclass_values v) = Ok (mkQ a (unit q0))).
  { unfold qstack. rewrite Hvals. rewrite <- Hvals. rewrite Hmap. simpl.
    now rewrite Ha. }
  exists (mkQ a (unit q0)).
  split; [exact Hfull |].
  split; [unfold vec_diff_to_q; rewrite Hfull; exact Hstack |].
  split; [simpl; now rewrite Hsa, Hlen |].
  split; [reflexivity |].
  destruct Hwf as (Habs & Hnd & Hk).
  assert (Hkeys : List.length (cls_fields (vcls v)) = List.length (comps v)).
  { rewrite <- Hk. unfold dict_keys. now rewrite length_map. }
  rewrite (constructor_quantity_closed (vcls v) (mkQ a (unit q0)) s
             (map conv (dataclass_values v))); try assumption.
  - rewrite <- Hk. unfold dataclass_values.
    now rewrite combine_keys_values.
  - simpl. now rewrite Hsa, Hlen, Hkeys.
  - unfold dataclass_values. now rewrite !length_map.
  - intros i Hi. rewrite Hkeys in Hi.
    assert (Hp : exists p, nth_error (dataclass_values v) i = Some p).
    { destruct (nth_error (dataclass_values v) i) eqn:Hn; [now eexists |].
      apply nth_error_None in Hn. unfold dataclass_values in Hn.
      rewrite length_map in Hn. lia. }
    destruct Hp as (p & Hp).
    rewrite (nth_map_nth_error conv _ i p _ Hp).
    assert (Hai : nth_error arrs i = Some (value (conv p))).
    { unfold arrs. now rewrite nth_error_map, Hp. }
    destruct (index_last_astack arrs s i _ Harrs Hai) as (a' & Ha' & _ & Hidx).
    rewrite Ha in Ha'. inversion Ha'; subst a'.
    unfold q_index_last. simpl. rewrite Hidx. reflexivity.
Qed.

Lemma stack_then_construct_witness :
  exists stacked,
    vec_diff_to_q Examples.dif123 = Ok stacked /\
    shape (value stacked) = [3] /\
    constructor_quantity Builtin.CartesianDifferential3D stacked
    = Ok Examples.dif123.
Proof.
  assert (Hwf : vec_wf Examples.dif123) by solve_wf.
  destruct (stack_then_construct Examples.dif123 [] "d_x" (scalar 1 u_km_s)
              [("d_y", scalar 2 u_km_s); ("d_z", scalar 3 u_km_s)]
              Hwf eq_refl)
    as (stacked & _ & Hq & Hs & _ & Hc).
  - intros k q [H | [H | [H | []]]]; inversion H; subst; now split.
  - intros k q [H | [H | [H | []]]]; inversion H; subst; reflexivity.
  - exists stacked. split; [exact Hq |]. split; [exact Hs |]. exact Hc.
Defined.
